(** * Platform abstraction layer of the social CLI: adapters, error handler, dispatcher

    Shallow embedding of
      - src/types/index.ts            (unified data model),
      - src/platforms/base.ts         (SocialPlatform: createError, handleError),
      - src/platforms/instagram.ts, linkedin.ts, twitter.ts (the three adapters),
      - src/cli/utils.ts, src/cli/commands/post.ts, src/auth/storage.ts
                                      (platform resolution and cross-posting),
      - src/auth/storage.ts           (the .env file: loadEnv, saveCredentials,
                                       deleteCredentials, hasCredentials),
      - src/cli/commands/engage.ts    (the engage command),
      - src/cli/quote-mentions.ts     (the quote-mentions tool).

    JavaScript values are modelled as the code reads them: an optional field is
    an [option]; [a || b] and [if (a)] follow JavaScript truthiness (the empty
    string, [0] and [undefined] are falsy).  The HTTP vendors are external: every
    network call is recorded in a log and answered by a [Vendor], a function of
    the log so far and of the call, which is universally quantified in the
    theorems.  Console output is not modelled. *)

From Stdlib Require Import String Ascii ZArith List Bool Lia.
Import ListNotations.
Local Open Scope string_scope.
Local Open Scope Z_scope.

(* ===================================================================== *)
(** ** JavaScript helpers *)
(* ===================================================================== *)

Definition nonempty (s : string) : bool :=
  match s with EmptyString => false | String _ _ => true end.

(** Truthiness of [string | undefined]. *)
Definition truthy (o : option string) : bool :=
  match o with Some s => nonempty s | None => false end.

(** [a || b] on [string | undefined], the right operand being optional too. *)
Definition or_else (a b : option string) : option string :=
  if truthy a then a else b.

(** [a || d] with a string default. *)
Definition or_str (a : option string) (d : string) : string :=
  match a with
  | Some s => if nonempty s then s else d
  | None => d
  end.

(** [n || d] on [number | undefined]. *)
Definition or_num (a : option Z) (d : Z) : Z :=
  match a with
  | Some n => if n =? 0 then d else n
  | None => d
  end.

Definition nl : string := String (ascii_of_nat 10) EmptyString.
Definition dquote : string := String (ascii_of_nat 34) EmptyString.

(** [s.includes(t)]. *)
Fixpoint includes (t s : string) : bool :=
  if String.prefix t s then true
  else match s with
       | EmptyString => false
       | String _ s' => includes t s'
       end.

(** A [Date]: built from an ISO string or from epoch milliseconds. *)
Inductive Date : Type :=
| DateOfString (s : string)
| DateOfMillis (ms : Z).

(* ===================================================================== *)
(** ** src/types/index.ts *)
(* ===================================================================== *)

Inductive Platform : Type := TWITTER | INSTAGRAM | LINKEDIN.

(** The enum's string values. *)
Definition platform_str (p : Platform) : string :=
  match p with
  | TWITTER => "twitter"
  | INSTAGRAM => "instagram"
  | LINKEDIN => "linkedin"
  end.

Definition Platform_eqb (p q : Platform) : bool :=
  match p, q with
  | TWITTER, TWITTER | INSTAGRAM, INSTAGRAM | LINKEDIN, LINKEDIN => true
  | _, _ => false
  end.

Inductive EngagementAction : Type := LIKE | COMMENT | SHARE | RETWEET | REPLY.

Definition action_str (a : EngagementAction) : string :=
  match a with
  | LIKE => "like"
  | COMMENT => "comment"
  | SHARE => "share"
  | RETWEET => "retweet"
  | REPLY => "reply"
  end.

Module User.
Record t : Type := mk {
  id : string;
  username : string;
  displayName : string;
  avatarUrl : option string;
  bio : option string;
  followersCount : option Z;
  followingCount : option Z;
  verified : option bool
}.
End User.

Module Post.
Record t : Type := mk {
  id : string;
  platform : Platform;
  author : User.t;
  content : string;
  timestamp : Date;
  mediaUrls : option (list string);
  likesCount : option Z;
  commentsCount : option Z;
  sharesCount : option Z;
  url : option string
}.
End Post.

Module PlatformConfig.
Record t : Type := mk {
  apiKey : option string;
  apiSecret : option string;
  accessToken : string;
  accessSecret : option string;
  bearerToken : option string;
  clientId : option string;
  clientSecret : option string;
  userId : option string;
  appId : option string;
  redirectUri : option string
}.
End PlatformConfig.

Module PostOptions.
Record t : Type := mk {
  text : option string;
  caption : option string;
  mediaPath : option string;
  mediaUrls : option (list string);
  linkUrl : option string;
  linkTitle : option string
}.
End PostOptions.

Module FeedOptions.
Record t : Type := mk {
  limit : option Z;
  maxResults : option Z;
  sinceId : option string;
  beforeId : option string
}.
(** The default argument [options = {}]. *)
Definition empty : t := mk None None None None.
End FeedOptions.

Module EngagementOptions.
Record t : Type := mk {
  postId : string;
  action : EngagementAction;
  commentText : option string
}.
End EngagementOptions.

Module SearchOptions.
Record t : Type := mk {
  query : string;
  limit : option Z;
  startTime : option Date;
  endTime : option Date
}.
End SearchOptions.

(* ===================================================================== *)
(** ** Thrown values *)
(* ===================================================================== *)

(** A value found in [error.code] / [error.statusCode]: the HTTP client of
    Twitter stores the numeric status there, other clients a string code. *)
Inductive JsCode : Type :=
| CNum (n : Z)
| CStr (s : string).

Definition code_truthy (c : option JsCode) : bool :=
  match c with
  | Some (CNum n) => negb (n =? 0)
  | Some (CStr s) => nonempty s
  | None => false
  end.

(** [c === n] for a number literal [n]. *)
Definition code_is (c : option JsCode) (n : Z) : bool :=
  match c with
  | Some (CNum m) => m =? n
  | _ => false
  end.

(** Whatever a [catch (error: any)] receives: the fields [handleError] reads
    ([message], [code], [statusCode], [rateLimit.reset], [data.title],
    [data.detail], [data.errors[0].message]) and the fields [createError]
    writes ([platform], [statusCode], [rateLimitReset]).  A [PlatformError] is
    such an object with [platform] set. *)
Module Err.
Record t : Type := mk {
  message : option string;
  code : option JsCode;
  statusCode : option JsCode;
  rateLimit_reset : option Z;
  data_title : option string;
  data_detail : option string;
  data_errors0_message : option string;
  platform : option Platform;
  rateLimitReset : option Date
}.
End Err.

(** [new Error(message)] as thrown by the libraries or by [throw new Error]. *)
Definition plainError (message : string) : Err.t :=
  Err.mk (Some message) None None None None None None None None.

(* ===================================================================== *)
(** ** src/platforms/base.ts: SocialPlatform *)
(* ===================================================================== *)

(** [createError(message, statusCode?, rateLimitReset?)], with [this.platform]
    as first argument. *)
Definition createError (platform : Platform) (message : string)
    (statusCode : option JsCode) (rateLimitReset : option Date) : Err.t :=
  {| Err.message := Some message;
     Err.code := None;
     Err.statusCode := statusCode;
     Err.rateLimit_reset := None;
     Err.data_title := None;
     Err.data_detail := None;
     Err.data_errors0_message := None;
     Err.platform := Some platform;
     Err.rateLimitReset := rateLimitReset |}.

(** [error.code === n || error.statusCode === n]. *)
Definition status_is (error : Err.t) (n : Z) : bool :=
  code_is (Err.code error) n || code_is (Err.statusCode error) n.

Definition rate_limit_message (platform : Platform) (time : string) : string :=
  "Rate limit exceeded for " ++ platform_str platform ++ ". Try again after " ++ time.

Definition authentication_message (platform : Platform) : string :=
  "Authentication failed for " ++ platform_str platform ++ ". Please check your credentials.".

Definition permission_message (platform : Platform) (errorDetail : string) : string :=
  "Permission denied for " ++ platform_str platform ++ ". " ++ errorDetail ++ nl ++
  "Your Twitter app may not have write permissions. To fix:" ++ nl ++
  "1. Go to https://developer.twitter.com/en/portal/projects" ++ nl ++
  "2. Select your app → " ++ dquote ++ "User authentication settings" ++ dquote ++ nl ++
  "3. Set App permissions to " ++ dquote ++ "Read and write" ++ dquote ++ nl ++
  "4. Regenerate your Access Token and Secret after changing permissions".

Definition credits_message : string :=
  "Twitter API credits depleted. Your account has no remaining credits for this month. " ++
  "Visit developer.twitter.com to purchase more credits or upgrade your API tier, " ++
  "or wait for your monthly credits to reset.".

Definition payment_message (platform : Platform) : string :=
  "Payment required for " ++ platform_str platform ++ ". Please check your API subscription status.".

Definition fifteen_minutes : Z := 15 * 60 * 1000.

Section Base.

(** [Date.prototype.toLocaleTimeString] depends on the host locale. *)
Variable toLocaleTimeString : Date -> string.

(** [handleError(error): never].  The result is the value thrown; [now] is
    what [Date.now()] returns. *)
Definition handleError (platform : Platform) (now : Z) (error : Err.t) : Err.t :=
  if status_is error 429 then
    let rateLimitReset :=
      match Err.rateLimit_reset error with
      | Some reset => if reset =? 0 then DateOfMillis (now + fifteen_minutes)
                      else DateOfMillis (reset * 1000)
      | None => DateOfMillis (now + fifteen_minutes)
      end in
    createError platform
      (rate_limit_message platform (toLocaleTimeString rateLimitReset))
      (Some (CNum 429)) (Some rateLimitReset)
  else if status_is error 401 then
    createError platform (authentication_message platform) (Some (CNum 401)) None
  else if status_is error 403 then
    let errorDetail :=
      or_str (or_else (Err.data_detail error) (Err.data_errors0_message error)) "" in
    createError platform (permission_message platform errorDetail) (Some (CNum 403)) None
  else if status_is error 402 then
    let isCreditsError :=
      match Err.data_title error with
      | Some title => String.eqb title "CreditsDepleted"
      | None => false
      end in
    if isCreditsError then createError platform credits_message (Some (CNum 402)) None
    else createError platform (payment_message platform) (Some (CNum 402)) None
  else
    createError platform
      (or_str (Err.message error) ("An error occurred with " ++ platform_str platform))
      (if code_truthy (Err.statusCode error) then Err.statusCode error else Err.code error)
      None.

End Base.

(* ===================================================================== *)
(** ** The error taxonomy of the specification *)
(* ===================================================================== *)

Inductive ErrorKind : Type :=
| AuthenticationFailed
| PermissionDenied
| RateLimited
| QuotaExhausted
| UnsupportedOperation
| ValidationFailed
| Unknown.

(** The specification's classification, read off a [PlatformError].  The
    code has no kind field: the only discriminator a [PlatformError] carries
    is [statusCode], and the specification assigns 401, 402, 403 and 429 to
    [AuthenticationFailed], [QuotaExhausted], [PermissionDenied] and
    [RateLimited]; every other error is the passthrough, [Unknown]. *)
Definition taxonomy_kind (e : Err.t) : ErrorKind :=
  match Err.statusCode e with
  | Some (CNum 401) => AuthenticationFailed
  | Some (CNum 402) => QuotaExhausted
  | Some (CNum 403) => PermissionDenied
  | Some (CNum 429) => RateLimited
  | _ => Unknown
  end.


Definition classified_statuses : list Z := [401; 402; 403; 429].

(* ===================================================================== *)
(** ** Vendor payloads *)
(* ===================================================================== *)

(** instagram.ts: [interface InstagramUser], [interface InstagramMedia]. *)
Module InstagramUser.
Record t : Type := mk {
  id : string;
  username : string;
  name : option string;
  profile_picture_url : option string;
  biography : option string;
  followers_count : option Z;
  follows_count : option Z;
  media_count : option Z
}.
End InstagramUser.

Inductive InstagramMediaType : Type := IMAGE | VIDEO | CAROUSEL_ALBUM.

Module InstagramMedia.
Record t : Type := mk {
  id : string;
  caption : option string;
  media_type : InstagramMediaType;
  media_url : option string;
  permalink : string;
  timestamp : string;
  username : string;
  like_count : option Z;
  comments_count : option Z
}.
End InstagramMedia.

(** linkedin.ts: [interface LinkedInProfile], [interface LinkedInPost]. *)
Module LinkedInProfile.
Record t : Type := mk {
  id : string;
  localizedFirstName : string;
  localizedLastName : string;
  profilePicture_displayImage : option string;
  headline : option string
}.
End LinkedInProfile.

Module ContentEntity.
Record t : Type := mk {
  entityLocation : option string;
  thumbnails : option (list string)   (* the [resolvedUrl] of each thumbnail *)
}.
End ContentEntity.

Module LinkedInPost.
Record t : Type := mk {
  id : string;
  author : string;
  created_time : Z;
  text_text : option string;
  content_contentEntities : option (list ContentEntity.t);
  commentary : option string
}.
End LinkedInPost.

(** twitter-api-v2: the fields of [UserV2], [TweetV2] and of the [includes]
    of a response that twitter.ts reads. *)
Module UserV2.
Record t : Type := mk {
  id : string;
  username : string;
  name : string;
  profile_image_url : option string;
  description : option string;
  followers_count : option Z;        (* public_metrics?.followers_count *)
  following_count : option Z;
  verified : option bool
}.
End UserV2.

Module TweetV2.
Record t : Type := mk {
  id : string;
  text : string;
  author_id : option string;
  created_at : option string;
  attachments_media_keys : option (list string);
  like_count : option Z;             (* public_metrics?.like_count *)
  reply_count : option Z;
  retweet_count : option Z
}.
End TweetV2.

Module MediaV2.
Record t : Type := mk {
  media_key : string;
  url : option string;
  preview_image_url : option string
}.
End MediaV2.

Module Includes.
Record t : Type := mk {
  users : option (list UserV2.t);
  media : option (list MediaV2.t)
}.
End Includes.

(** A timeline or search page: [page.data.data] and [page.includes]. *)
Module TweetPage.
Record t : Type := mk {
  data : option (list TweetV2.t);
  includes : option Includes.t
}.
End TweetPage.

(** [singleTweet]: [data] and [includes]. *)
Module TweetLookup.
Record t : Type := mk {
  data : TweetV2.t;
  includes : option Includes.t
}.
End TweetLookup.

(* ===================================================================== *)
(** ** Network calls *)
(* ===================================================================== *)

(** One constructor per HTTP/SDK call an adapter issues, with the data the
    adapter puts into it. *)
Inductive Call : Type :=
(* instagram.ts, through the axios client *)
| IgGetUser (userId : option string)                          (* GET /{userId} *)
| IgListMedia (userId : option string) (limit : Z)            (* GET /{userId}/media *)
| IgCreateContainer (userId : option string) (image_url caption : string)
| IgPublish (userId : option string) (creation_id : string)   (* POST /{userId}/media_publish *)
| IgGetMedia (mediaId : string)                               (* GET /{mediaId} *)
| IgComment (postId message : string)                         (* POST /{postId}/comments *)
(* linkedin.ts, through the axios client *)
| LiMe                                                        (* GET /me *)
| LiListUgcPosts (authors : string) (count : Z)               (* GET /ugcPosts *)
| LiCreateUgcPost (author text : string) (article : option (string * string))
| LiSocialLike (actor object : string)                        (* POST /socialActions, verb LIKE *)
| LiSocialComment (actor object text : string)                (* POST /socialActions, message *)
| LiReshare (author text originalShare : string)              (* POST /ugcPosts, originalShare *)
(* twitter.ts, through twitter-api-v2 *)
| TwMe
| TwHomeTimeline (max_results : Z) (exclude_replies : bool)
| TwUserTimeline (userId : string) (max_results : Z)
| TwSearch (query : string) (max_results : Z) (start_time end_time : option Date)
| TwUploadMedia (mediaUrl : string)
| TwTweet (text : string) (media_ids : option (list string))
| TwSingleTweet (id : string)
| TwLike (userId postId : string)
| TwRetweet (userId postId : string)
| TwReply (text postId : string).

(** What a successful call resolves to. *)
Definition Resp (c : Call) : Type :=
  match c with
  | IgGetUser _ => InstagramUser.t
  | IgListMedia _ _ => option (list InstagramMedia.t)      (* response.data.data *)
  | IgCreateContainer _ _ _ => string                      (* response.data.id *)
  | IgPublish _ _ => string
  | IgGetMedia _ => InstagramMedia.t
  | IgComment _ _ => unit
  | LiMe => LinkedInProfile.t
  | LiListUgcPosts _ _ => option (list LinkedInPost.t)     (* response.data.elements *)
  | LiCreateUgcPost _ _ _ => string                        (* response.data.id *)
  | LiSocialLike _ _ => unit
  | LiSocialComment _ _ _ => unit
  | LiReshare _ _ _ => unit
  | TwMe => UserV2.t
  | TwHomeTimeline _ _ => TweetPage.t
  | TwUserTimeline _ _ => TweetPage.t
  | TwSearch _ _ _ _ => TweetPage.t
  | TwUploadMedia _ => string
  | TwTweet _ _ => string                                  (* tweet.data.id *)
  | TwSingleTweet _ => TweetLookup.t
  | TwLike _ _ => unit
  | TwRetweet _ _ => unit
  | TwReply _ _ => unit
  end.

(** The outside world: the calls issued so far and the clock. *)
Record World : Type := mkWorld {
  log : list Call;
  now : Z
}.

(** A vendor answers a call, given the calls that preceded it, with a payload
    or with the error its client library throws. *)
Definition Vendor : Type := list Call -> forall c : Call, Err.t + Resp c.

(* ===================================================================== *)
(** ** Methods: state of [this], the world, and exceptions *)
(* ===================================================================== *)

(** An async method of an object whose fields are [St]: it returns or throws,
    and in both cases leaves the fields and the world as it made them. *)
Definition M (St A : Type) : Type := St -> World -> (Err.t + A) * St * World.

Definition ret {St A} (a : A) : M St A := fun s w => (inr a, s, w).

Definition bind {St A B} (m : M St A) (k : A -> M St B) : M St B :=
  fun s w =>
    match m s w with
    | (inr a, s', w') => k a s' w'
    | (inl e, s', w') => (inl e, s', w')
    end.

Definition throw {St A} (e : Err.t) : M St A := fun s w => (inl e, s, w).

Definition try_catch {St A} (body : M St A) (handler : Err.t -> M St A) : M St A :=
  fun s w =>
    match body s w with
    | (inr a, s', w') => (inr a, s', w')
    | (inl e, s', w') => handler e s' w'
    end.

Definition this {St} : M St St := fun s w => (inr s, s, w).

Definition assign {St} (f : St -> St) : M St unit := fun s w => (inr tt, f s, w).

Definition date_now {St} : M St Z := fun s w => (inr (now w), s, w).

Declare Scope method_scope.
Delimit Scope method_scope with method.
Notation "x <- m ;; k" := (bind m (fun x => k))
  (at level 61, m at next level, right associativity) : method_scope.
Notation "m ;; k" := (bind m (fun _ => k))
  (at level 61, right associativity) : method_scope.
Local Open Scope method_scope.

(** [for (const x of xs) { ys.push(await f(x)) }]. *)
Fixpoint for_each {St A B} (f : A -> M St B) (xs : list A) : M St (list B) :=
  match xs with
  | [] => ret []
  | x :: xs' => y <- f x ;; ys <- for_each f xs' ;; ret (y :: ys)
  end.

(** The outcome of a method call, its fields and the world afterwards. *)
Definition outcome {St A} (r : (Err.t + A) * St * World) : Err.t + A := fst (fst r).
Definition fields {St A} (r : (Err.t + A) * St * World) : St := snd (fst r).
Definition world {St A} (r : (Err.t + A) * St * World) : World := snd r.

(** The calls a run has added to the log. *)
Definition issued (before after : World) : list Call :=
  skipn (length (log before)) (log after).

(* ===================================================================== *)
(** ** Pure mappings of the adapters *)
(* ===================================================================== *)

(** instagram.ts *)
Definition mapInstagramUserToUser (igUser : InstagramUser.t) : User.t :=
  {| User.id := InstagramUser.id igUser;
     User.username := InstagramUser.username igUser;
     User.displayName := or_str (InstagramUser.name igUser) (InstagramUser.username igUser);
     User.avatarUrl := InstagramUser.profile_picture_url igUser;
     User.bio := InstagramUser.biography igUser;
     User.followersCount := InstagramUser.followers_count igUser;
     User.followingCount := InstagramUser.follows_count igUser;
     User.verified := None |}.

Definition mapInstagramMediaToPost (media : InstagramMedia.t) (author : User.t) : Post.t :=
  {| Post.id := InstagramMedia.id media;
     Post.platform := INSTAGRAM;
     Post.author := author;
     Post.content := or_str (InstagramMedia.caption media) "";
     Post.timestamp := DateOfString (InstagramMedia.timestamp media);
     Post.mediaUrls :=
       match InstagramMedia.media_url media with
       | Some u => if nonempty u then Some [u] else None
       | None => None
       end;
     Post.likesCount := InstagramMedia.like_count media;
     Post.commentsCount := InstagramMedia.comments_count media;
     Post.sharesCount := None;
     Post.url := Some (InstagramMedia.permalink media) |}.

(** linkedin.ts *)
Definition mapLinkedInProfileToUser (profile : LinkedInProfile.t) : User.t :=
  {| User.id := LinkedInProfile.id profile;
     User.username := LinkedInProfile.id profile;
     User.displayName :=
       LinkedInProfile.localizedFirstName profile ++ " " ++
       LinkedInProfile.localizedLastName profile;
     User.avatarUrl := LinkedInProfile.profilePicture_displayImage profile;
     User.bio := LinkedInProfile.headline profile;
     User.followersCount := None;
     User.followingCount := None;
     User.verified := None |}.

(** The loop over [post.content.contentEntities]. *)
Fixpoint entity_urls (entities : list ContentEntity.t) : list string :=
  match entities with
  | [] => []
  | entity :: rest =>
      if truthy (ContentEntity.entityLocation entity) then
        or_str (ContentEntity.entityLocation entity) "" :: entity_urls rest
      else
        match ContentEntity.thumbnails entity with
        | Some (resolvedUrl :: _) =>
            if nonempty resolvedUrl then resolvedUrl :: entity_urls rest
            else entity_urls rest
        | _ => entity_urls rest
        end
  end.

Definition feed_update_url (id : string) : string :=
  "https://www.linkedin.com/feed/update/" ++ id ++ "/".

Definition mapLinkedInPostToPost (post : LinkedInPost.t) (author : User.t) : Post.t :=
  let text := or_str (or_else (LinkedInPost.text_text post) (LinkedInPost.commentary post)) "" in
  let mediaUrls :=
    match LinkedInPost.content_contentEntities post with
    | Some entities => entity_urls entities
    | None => []
    end in
  {| Post.id := LinkedInPost.id post;
     Post.platform := LINKEDIN;
     Post.author := author;
     Post.content := text;
     Post.timestamp := DateOfMillis (LinkedInPost.created_time post);
     Post.mediaUrls := match mediaUrls with [] => None | _ => Some mediaUrls end;
     Post.likesCount := None;
     Post.commentsCount := None;
     Post.sharesCount := None;
     Post.url := Some (feed_update_url (LinkedInPost.id post)) |}.

(** twitter.ts *)
Definition mapTwitterUserToUser (twitterUser : UserV2.t) : User.t :=
  {| User.id := UserV2.id twitterUser;
     User.username := UserV2.username twitterUser;
     User.displayName := UserV2.name twitterUser;
     User.avatarUrl := UserV2.profile_image_url twitterUser;
     User.bio := UserV2.description twitterUser;
     User.followersCount := UserV2.followers_count twitterUser;
     User.followingCount := UserV2.following_count twitterUser;
     User.verified := UserV2.verified twitterUser |}.

(** [u.id === tweet.author_id]. *)
Definition is_author (author_id : option string) (u : UserV2.t) : bool :=
  match author_id with
  | Some a => String.eqb (UserV2.id u) a
  | None => false
  end.

(** The fallback author of [mapTwitterTweetToPost]. *)
Definition unknown_author (author_id : option string) : User.t :=
  {| User.id := or_str author_id "unknown";
     User.username := "unknown";
     User.displayName := "Unknown User";
     User.avatarUrl := None;
     User.bio := None;
     User.followersCount := None;
     User.followingCount := None;
     User.verified := None |}.

(** The users and the media of an optional [includes]. *)
Definition includes_users (incl : option Includes.t) : option (list UserV2.t) :=
  match incl with Some i => Includes.users i | None => None end.

Definition includes_media (incl : option Includes.t) : option (list MediaV2.t) :=
  match incl with Some i => Includes.media i | None => None end.

(** The loop over [tweet.attachments.media_keys]. *)
Fixpoint media_urls (media : list MediaV2.t) (media_keys : list string) : list string :=
  match media_keys with
  | [] => []
  | mediaKey :: rest =>
      match find (fun m => String.eqb (MediaV2.media_key m) mediaKey) media with
      | Some m =>
          if truthy (MediaV2.url m) then or_str (MediaV2.url m) "" :: media_urls media rest
          else if truthy (MediaV2.preview_image_url m)
               then or_str (MediaV2.preview_image_url m) "" :: media_urls media rest
               else media_urls media rest
      | None => media_urls media rest
      end
  end.

(** [mapTwitterTweetToPost(tweet, includes)]; [current] is the value of
    [new Date()]. *)
Definition mapTwitterTweetToPost (current : Z) (tweet : TweetV2.t)
    (incl : option Includes.t) : Post.t :=
  let author :=
    match includes_users incl with
    | Some users =>
        match find (is_author (TweetV2.author_id tweet)) users with
        | Some twitterUser => mapTwitterUserToUser twitterUser
        | None => unknown_author (TweetV2.author_id tweet)
        end
    | None => unknown_author (TweetV2.author_id tweet)
    end in
  let mediaUrls :=
    match TweetV2.attachments_media_keys tweet, includes_media incl with
    | Some media_keys, Some media => media_urls media media_keys
    | _, _ => []
    end in
  {| Post.id := TweetV2.id tweet;
     Post.platform := TWITTER;
     Post.author := author;
     Post.content := TweetV2.text tweet;
     Post.timestamp :=
       match TweetV2.created_at tweet with
       | Some c => if nonempty c then DateOfString c else DateOfMillis current
       | None => DateOfMillis current
       end;
     Post.mediaUrls := match mediaUrls with [] => None | _ => Some mediaUrls end;
     Post.likesCount := TweetV2.like_count tweet;
     Post.commentsCount := TweetV2.reply_count tweet;
     Post.sharesCount := TweetV2.retweet_count tweet;
     Post.url := Some ("https://twitter.com/" ++ User.username author ++ "/status/" ++ TweetV2.id tweet) |}.

(* ===================================================================== *)
(** ** Issuing calls and the [catch] clause shared by all methods *)
(* ===================================================================== *)

(** [await client.<call>]: the call is logged and the vendor answers. *)
Definition request {St} (vendor : Vendor) (c : Call) : M St (Resp c) :=
  fun s w => (vendor (log w) c, s, mkWorld (log w ++ [c]) (now w)).

(** [catch (error: any) { this.handleError(error); }]. *)
Definition rethrow {St A} (toLocaleTimeString : Date -> string) (platform : Platform)
    (error : Err.t) : M St A :=
  n <- date_now ;; throw (handleError toLocaleTimeString platform n error).

(** [try { body } catch (error: any) { this.handleError(error); }]. *)
Definition guarded {St A} (toLocaleTimeString : Date -> string) (platform : Platform)
    (body : M St A) : M St A :=
  try_catch body (rethrow toLocaleTimeString platform).

(** [xs?.[0]]. *)
Definition first_of (xs : option (list string)) : option string :=
  match xs with
  | Some (x :: _) => Some x
  | _ => None
  end.

(** [xs || []]. *)
Definition or_nil {A} (xs : option (list A)) : list A :=
  match xs with Some l => l | None => [] end.

(* ===================================================================== *)
(** ** src/platforms/instagram.ts *)
(* ===================================================================== *)

Module InstagramPlatform.

(** What [axios.create] is given. *)
Record AxiosInstance : Type := mkClient {
  baseURL : string;
  access_token : string
}.

(** The fields of an instance; [platform] is [Platform.INSTAGRAM]. *)
Record t : Type := mk {
  config : PlatformConfig.t;
  client : option AxiosInstance
}.

Definition baseUrl : string := "https://graph.instagram.com".

(** [new InstagramPlatform(config)]. *)
Definition new (config : PlatformConfig.t) : t := mk config None.

Definition set_client (c : AxiosInstance) (s : t) : t := mk (config s) (Some c).

Definition error (message : string) : Err.t := createError INSTAGRAM message None None.

Section Methods.
Variable toLocaleTimeString : Date -> string.
Variable vendor : Vendor.

Definition getMe : M t User.t :=
  guarded toLocaleTimeString INSTAGRAM (
    s <- this ;;
    match client s with
    | None => throw (error "Not authenticated")
    | Some _ =>
        igUser <- request vendor (IgGetUser (PlatformConfig.userId (config s))) ;;
        ret (mapInstagramUserToUser igUser)
    end).

Definition authenticate : M t unit :=
  guarded toLocaleTimeString INSTAGRAM (
    s <- this ;;
    if negb (nonempty (PlatformConfig.accessToken (config s)))
       || negb (truthy (PlatformConfig.userId (config s)))
    then throw (error "Missing Instagram access token or user ID")
    else
      assign (set_client (mkClient baseUrl (PlatformConfig.accessToken (config s)))) ;;
      getMe ;;
      ret tt).

Definition getFeed (options : FeedOptions.t) : M t (list Post.t) :=
  guarded toLocaleTimeString INSTAGRAM (
    s <- this ;;
    match client s with
    | None => throw (error "Not authenticated")
    | Some _ =>
        response <- request vendor
          (IgListMedia (PlatformConfig.userId (config s))
                       (or_num (FeedOptions.limit options) 20)) ;;
        me <- getMe ;;
        ret (map (fun media => mapInstagramMediaToPost media me) (or_nil response))
    end).

Definition post (options : PostOptions.t) : M t Post.t :=
  guarded toLocaleTimeString INSTAGRAM (
    s <- this ;;
    match client s with
    | None => throw (error "Not authenticated")
    | Some _ =>
        if negb (truthy (PostOptions.mediaPath options))
           && negb (truthy (first_of (PostOptions.mediaUrls options)))
        then throw (error "Instagram requires an image or video URL to post")
        else
          let mediaUrl :=
            or_else (first_of (PostOptions.mediaUrls options))
                    (PostOptions.mediaPath options) in
          if negb (truthy mediaUrl) then throw (error "Media URL is required")
          else
            containerId <- request vendor
              (IgCreateContainer (PlatformConfig.userId (config s))
                 (or_str mediaUrl "")
                 (or_str (or_else (PostOptions.caption options)
                                  (PostOptions.text options)) "")) ;;
            mediaId <- request vendor
              (IgPublish (PlatformConfig.userId (config s)) containerId) ;;
            media <- request vendor (IgGetMedia mediaId) ;;
            me <- getMe ;;
            ret (mapInstagramMediaToPost media me)
    end).

Definition engage (options : EngagementOptions.t) : M t unit :=
  guarded toLocaleTimeString INSTAGRAM (
    s <- this ;;
    match client s with
    | None => throw (error "Not authenticated")
    | Some _ =>
        match EngagementOptions.action options with
        | COMMENT | REPLY =>
            if negb (truthy (EngagementOptions.commentText options))
            then throw (error "Comment text is required")
            else
              request vendor
                (IgComment (EngagementOptions.postId options)
                           (or_str (EngagementOptions.commentText options) "")) ;;
              ret tt
        | LIKE =>
            throw (error "Instagram API does not support liking posts programmatically")
        | SHARE =>
            throw (error "Instagram API does not support sharing posts programmatically")
        | RETWEET =>
            throw (error ("Unsupported action: " ++ action_str RETWEET))
        end
    end).

Definition search (options : SearchOptions.t) : M t (list Post.t) :=
  guarded toLocaleTimeString INSTAGRAM (
    s <- this ;;
    match client s with
    | None => throw (error "Not authenticated")
    | Some _ =>
        throw (error "Instagram API does not support post search. Only hashtag search is available with additional permissions.")
    end).

End Methods.
End InstagramPlatform.

(* ===================================================================== *)
(** ** src/platforms/linkedin.ts *)
(* ===================================================================== *)

Module LinkedInPlatform.

(** What [axios.create] is given: the base URL and the Authorization
    header (the two other headers are constants). *)
Record AxiosInstance : Type := mkClient {
  baseURL : string;
  authorization : string
}.

Record t : Type := mk {
  config : PlatformConfig.t;
  client : option AxiosInstance;
  profileId : option string
}.

Definition baseUrl : string := "https://api.linkedin.com/v2".

Definition new (config : PlatformConfig.t) : t := mk config None None.

Definition set_client (c : AxiosInstance) (s : t) : t :=
  mk (config s) (Some c) (profileId s).

Definition set_profileId (id : string) (s : t) : t :=
  mk (config s) (client s) (Some id).

Definition error (message : string) : Err.t := createError LINKEDIN message None None.

Definition person_urn (profileId : string) : string := "urn:li:person:" ++ profileId.

(** [!this.client || !this.profileId] is false: the profile id, if so. *)
Definition session (s : t) : option string :=
  match client s, profileId s with
  | Some _, Some id => if nonempty id then Some id else None
  | _, _ => None
  end.

Section Methods.
Variable toLocaleTimeString : Date -> string.
Variable vendor : Vendor.

Definition getMe : M t User.t :=
  guarded toLocaleTimeString LINKEDIN (
    s <- this ;;
    match client s with
    | None => throw (error "Not authenticated")
    | Some _ =>
        profile <- request vendor LiMe ;;
        ret (mapLinkedInProfileToUser profile)
    end).

Definition authenticate : M t unit :=
  guarded toLocaleTimeString LINKEDIN (
    s <- this ;;
    if negb (nonempty (PlatformConfig.accessToken (config s)))
    then throw (error "Missing LinkedIn access token")
    else
      assign (set_client
                (mkClient baseUrl ("Bearer " ++ PlatformConfig.accessToken (config s)))) ;;
      me <- getMe ;;
      assign (set_profileId (User.id me))).

Definition getFeed (options : FeedOptions.t) : M t (list Post.t) :=
  guarded toLocaleTimeString LINKEDIN (
    s <- this ;;
    match session s with
    | None => throw (error "Not authenticated")
    | Some profileId =>
        response <- request vendor
          (LiListUgcPosts ("List(" ++ person_urn profileId ++ ")")
                          (or_num (FeedOptions.limit options) 20)) ;;
        me <- getMe ;;
        ret (map (fun post => mapLinkedInPostToPost post me) (or_nil response))
    end).

Definition post (options : PostOptions.t) : M t Post.t :=
  guarded toLocaleTimeString LINKEDIN (
    s <- this ;;
    match session s with
    | None => throw (error "Not authenticated")
    | Some profileId =>
        if negb (truthy (PostOptions.text options))
           && negb (truthy (PostOptions.linkUrl options))
        then throw (error "Post text or link URL is required")
        else
          let article :=
            if truthy (PostOptions.linkUrl options)
            then Some (or_str (PostOptions.linkUrl options) "",
                       or_str (or_else (PostOptions.linkTitle options)
                                       (PostOptions.linkUrl options)) "")
            else None in
          id <- request vendor
            (LiCreateUgcPost (person_urn profileId)
                             (or_str (PostOptions.text options) "") article) ;;
          me <- getMe ;;
          current <- date_now ;;
          ret {| Post.id := id;
                 Post.platform := LINKEDIN;
                 Post.author := me;
                 Post.content := or_str (PostOptions.text options) "";
                 Post.timestamp := DateOfMillis current;
                 Post.mediaUrls := None;
                 Post.likesCount := None;
                 Post.commentsCount := None;
                 Post.sharesCount := None;
                 Post.url := Some (feed_update_url id) |}
    end).

Definition engage (options : EngagementOptions.t) : M t unit :=
  guarded toLocaleTimeString LINKEDIN (
    s <- this ;;
    match session s with
    | None => throw (error "Not authenticated")
    | Some profileId =>
        match EngagementOptions.action options with
        | LIKE =>
            request vendor
              (LiSocialLike (person_urn profileId) (EngagementOptions.postId options)) ;;
            ret tt
        | COMMENT | REPLY =>
            if negb (truthy (EngagementOptions.commentText options))
            then throw (error "Comment text is required")
            else
              request vendor
                (LiSocialComment (person_urn profileId)
                   (EngagementOptions.postId options)
                   (or_str (EngagementOptions.commentText options) "")) ;;
              ret tt
        | SHARE =>
            request vendor
              (LiReshare (person_urn profileId)
                 (or_str (EngagementOptions.commentText options) "")
                 (EngagementOptions.postId options)) ;;
            ret tt
        | RETWEET =>
            throw (error ("Unsupported action: " ++ action_str RETWEET))
        end
    end).

Definition search (options : SearchOptions.t) : M t (list Post.t) :=
  guarded toLocaleTimeString LINKEDIN (
    s <- this ;;
    match client s with
    | None => throw (error "Not authenticated")
    | Some _ => throw (error "LinkedIn API does not support general post search")
    end).

End Methods.
End LinkedInPlatform.

(* ===================================================================== *)
(** ** src/platforms/twitter.ts *)
(* ===================================================================== *)

Module TwitterPlatform.

(** The two ways [new TwitterApi(...)] is called. *)
Inductive TwitterApi : Type :=
| UserContext (appKey appSecret accessToken accessSecret : string)
| AppOnly (bearerToken : string).

Record t : Type := mk {
  config : PlatformConfig.t;
  client : option TwitterApi;
  readWriteClient : option TwitterApi
}.

Definition new (config : PlatformConfig.t) : t := mk config None None.

(** [this.client = c; this.readWriteClient = this.client]. *)
Definition set_both (c : TwitterApi) (s : t) : t := mk (config s) (Some c) (Some c).

Definition set_client (c : TwitterApi) (s : t) : t :=
  mk (config s) (Some c) (readWriteClient s).

Definition error (message : string) : Err.t := createError TWITTER message None None.

Definition no_write_access : string :=
  "Write access not available. Need OAuth 1.0a credentials.".

(** [Math.min(Math.max(limit, lo), 100)]. *)
Definition clamp (lo limit : Z) : Z := Z.min (Z.max limit lo) 100.

Section Methods.
Variable toLocaleTimeString : Date -> string.
Variable vendor : Vendor.

Definition getMe : M t User.t :=
  guarded toLocaleTimeString TWITTER (
    s <- this ;;
    match client s with
    | None => throw (error "Not authenticated")
    | Some _ =>
        me <- request vendor TwMe ;;
        ret (mapTwitterUserToUser me)
    end).

Definition authenticate : M t unit :=
  guarded toLocaleTimeString TWITTER (
    s <- this ;;
    let c := config s in
    (if truthy (PlatformConfig.apiKey c) && truthy (PlatformConfig.apiSecret c)
        && nonempty (PlatformConfig.accessToken c)
        && truthy (PlatformConfig.accessSecret c)
     then assign (set_both
                    (UserContext (or_str (PlatformConfig.apiKey c) "")
                                 (or_str (PlatformConfig.apiSecret c) "")
                                 (PlatformConfig.accessToken c)
                                 (or_str (PlatformConfig.accessSecret c) "")))
     else if truthy (PlatformConfig.bearerToken c)
     then assign (set_client (AppOnly (or_str (PlatformConfig.bearerToken c) "")))
     else throw (error "Missing Twitter API credentials")) ;;
    getMe ;;
    ret tt).

(** The loop that maps a page of tweets. *)
Definition map_page (page : TweetPage.t) : M t (list Post.t) :=
  for_each
    (fun tweet => current <- date_now ;;
                  ret (mapTwitterTweetToPost current tweet (TweetPage.includes page)))
    (or_nil (TweetPage.data page)).

Definition getFeed (options : FeedOptions.t) : M t (list Post.t) :=
  guarded toLocaleTimeString TWITTER (
    s <- this ;;
    match client s with
    | None => throw (error "Not authenticated")
    | Some _ =>
        getMe ;;
        timeline <- request vendor
          (TwHomeTimeline (or_num (FeedOptions.limit options) 20) false) ;;
        map_page timeline
    end).

Definition post (options : PostOptions.t) : M t Post.t :=
  guarded toLocaleTimeString TWITTER (
    s <- this ;;
    match readWriteClient s with
    | None => throw (error no_write_access)
    | Some _ =>
        if negb (truthy (PostOptions.text options))
        then throw (error "Tweet text is required")
        else
          media <-
            match PostOptions.mediaUrls options with
            | Some (mediaUrl :: rest) =>
                mediaIds <- for_each (fun u => request vendor (TwUploadMedia u))
                                     (mediaUrl :: rest) ;;
                ret (Some mediaIds)
            | _ => ret None
            end ;;
          id <- request vendor (TwTweet (or_str (PostOptions.text options) "") media) ;;
          fullTweet <- request vendor (TwSingleTweet id) ;;
          current <- date_now ;;
          ret (mapTwitterTweetToPost current (TweetLookup.data fullTweet)
                                     (TweetLookup.includes fullTweet))
    end).

Definition engage (options : EngagementOptions.t) : M t unit :=
  guarded toLocaleTimeString TWITTER (
    s <- this ;;
    match readWriteClient s with
    | None => throw (error no_write_access)
    | Some _ =>
        me <- getMe ;;
        match EngagementOptions.action options with
        | LIKE =>
            request vendor (TwLike (User.id me) (EngagementOptions.postId options)) ;;
            ret tt
        | RETWEET =>
            request vendor (TwRetweet (User.id me) (EngagementOptions.postId options)) ;;
            ret tt
        | REPLY | COMMENT =>
            if negb (truthy (EngagementOptions.commentText options))
            then throw (error "Comment text is required for replies")
            else
              request vendor
                (TwReply (or_str (EngagementOptions.commentText options) "")
                         (EngagementOptions.postId options)) ;;
              ret tt
        | SHARE =>
            throw (error ("Unsupported action: " ++ action_str SHARE))
        end
    end).

Definition getFollowingFeed (limit : Z) : M t (list Post.t) :=
  guarded toLocaleTimeString TWITTER (
    s <- this ;;
    match client s with
    | None => throw (error "Not authenticated")
    | Some _ =>
        timeline <- request vendor (TwHomeTimeline (clamp 1 limit) true) ;;
        map_page timeline
    end).

Definition getMyPosts (limit : Z) : M t (list Post.t) :=
  guarded toLocaleTimeString TWITTER (
    s <- this ;;
    match client s with
    | None => throw (error "Not authenticated")
    | Some _ =>
        me <- getMe ;;
        timeline <- request vendor (TwUserTimeline (User.id me) (clamp 5 limit)) ;;
        map_page timeline
    end).

Definition search (options : SearchOptions.t) : M t (list Post.t) :=
  guarded toLocaleTimeString TWITTER (
    s <- this ;;
    match client s with
    | None => throw (error "Not authenticated")
    | Some _ =>
        searchResults <- request vendor
          (TwSearch (SearchOptions.query options)
                    (or_num (SearchOptions.limit options) 20)
                    (SearchOptions.startTime options)
                    (SearchOptions.endTime options)) ;;
        map_page searchResults
    end).

End Methods.
End TwitterPlatform.

(* ===================================================================== *)
(** ** The adapters behind the common interface *)
(* ===================================================================== *)

(** An instance of a subclass of [SocialPlatform]. *)
Inductive SocialPlatform : Type :=
| Twitter (s : TwitterPlatform.t)
| Instagram (s : InstagramPlatform.t)
| LinkedIn (s : LinkedInPlatform.t).

(** [getPlatform()]: the tag given to [super(...)] by each constructor. *)
Definition getPlatform (a : SocialPlatform) : Platform :=
  match a with
  | Twitter _ => TWITTER
  | Instagram _ => INSTAGRAM
  | LinkedIn _ => LINKEDIN
  end.

(** [this.config]. *)
Definition config_of (a : SocialPlatform) : PlatformConfig.t :=
  match a with
  | Twitter s => TwitterPlatform.config s
  | Instagram s => InstagramPlatform.config s
  | LinkedIn s => LinkedInPlatform.config s
  end.

(** The operations of the abstract class, with their arguments. *)
Inductive Operation : Type :=
| Authenticate
| GetMe
| GetFeed (options : FeedOptions.t)
| CreatePost (options : PostOptions.t)
| Engage (options : EngagementOptions.t)
| Search (options : SearchOptions.t).

(** What an operation resolves to. *)
Inductive Value : Type :=
| VVoid
| VUser (u : User.t)
| VPost (p : Post.t)
| VPosts (ps : list Post.t).

(** Run a method of one subclass as a step on the instance. *)
Definition lift {St A} (wrap : St -> SocialPlatform) (m : M St A)
    (s : St) (w : World) : (Err.t + A) * SocialPlatform * World :=
  match m s w with
  | (r, s', w') => (r, wrap s', w')
  end.

(** The result of an operation, whatever its type. *)
Definition as_value {A} (val : A -> Value)
    (r : (Err.t + A) * SocialPlatform * World) : (Err.t + Value) * SocialPlatform * World :=
  match r with
  | (inr a, s, w) => (inr (val a), s, w)
  | (inl e, s, w) => (inl e, s, w)
  end.

Section Dispatch.
Variable toLocaleTimeString : Date -> string.
Variable vendor : Vendor.

(** The virtual calls [instance.authenticate()], [instance.getMe()], ... *)
Definition authenticate (a : SocialPlatform) : World -> (Err.t + unit) * SocialPlatform * World :=
  match a with
  | Twitter s => lift Twitter (TwitterPlatform.authenticate toLocaleTimeString vendor) s
  | Instagram s => lift Instagram (InstagramPlatform.authenticate toLocaleTimeString vendor) s
  | LinkedIn s => lift LinkedIn (LinkedInPlatform.authenticate toLocaleTimeString vendor) s
  end.

Definition getMe (a : SocialPlatform) : World -> (Err.t + User.t) * SocialPlatform * World :=
  match a with
  | Twitter s => lift Twitter (TwitterPlatform.getMe toLocaleTimeString vendor) s
  | Instagram s => lift Instagram (InstagramPlatform.getMe toLocaleTimeString vendor) s
  | LinkedIn s => lift LinkedIn (LinkedInPlatform.getMe toLocaleTimeString vendor) s
  end.

Definition getFeed (a : SocialPlatform) (options : FeedOptions.t)
    : World -> (Err.t + list Post.t) * SocialPlatform * World :=
  match a with
  | Twitter s => lift Twitter (TwitterPlatform.getFeed toLocaleTimeString vendor options) s
  | Instagram s => lift Instagram (InstagramPlatform.getFeed toLocaleTimeString vendor options) s
  | LinkedIn s => lift LinkedIn (LinkedInPlatform.getFeed toLocaleTimeString vendor options) s
  end.

Definition post (a : SocialPlatform) (options : PostOptions.t)
    : World -> (Err.t + Post.t) * SocialPlatform * World :=
  match a with
  | Twitter s => lift Twitter (TwitterPlatform.post toLocaleTimeString vendor options) s
  | Instagram s => lift Instagram (InstagramPlatform.post toLocaleTimeString vendor options) s
  | LinkedIn s => lift LinkedIn (LinkedInPlatform.post toLocaleTimeString vendor options) s
  end.

Definition engage (a : SocialPlatform) (options : EngagementOptions.t)
    : World -> (Err.t + unit) * SocialPlatform * World :=
  match a with
  | Twitter s => lift Twitter (TwitterPlatform.engage toLocaleTimeString vendor options) s
  | Instagram s => lift Instagram (InstagramPlatform.engage toLocaleTimeString vendor options) s
  | LinkedIn s => lift LinkedIn (LinkedInPlatform.engage toLocaleTimeString vendor options) s
  end.

Definition search (a : SocialPlatform) (options : SearchOptions.t)
    : World -> (Err.t + list Post.t) * SocialPlatform * World :=
  match a with
  | Twitter s => lift Twitter (TwitterPlatform.search toLocaleTimeString vendor options) s
  | Instagram s => lift Instagram (InstagramPlatform.search toLocaleTimeString options) s
  | LinkedIn s => lift LinkedIn (LinkedInPlatform.search toLocaleTimeString options) s
  end.

(** Any of the six, by name. *)
Definition call (a : SocialPlatform) (op : Operation) (w : World)
    : (Err.t + Value) * SocialPlatform * World :=
  match op with
  | Authenticate => as_value (fun _ => VVoid) (authenticate a w)
  | GetMe => as_value VUser (getMe a w)
  | GetFeed options => as_value VPosts (getFeed a options w)
  | CreatePost options => as_value VPost (post a options w)
  | Engage options => as_value (fun _ => VVoid) (engage a options w)
  | Search options => as_value VPosts (search a options w)
  end.

End Dispatch.

(* ===================================================================== *)
(** ** src/auth/storage.ts: getCredentials *)
(* ===================================================================== *)

(** [process.env] once [loadEnv()] has merged the .env file into it. *)
Definition Env : Type := string -> option string.

Definition getCredentials (env : Env) (platform : Platform) : option PlatformConfig.t :=
  match platform with
  | TWITTER =>
      let accessToken := env "TWITTER_ACCESS_TOKEN" in
      let bearerToken := env "TWITTER_BEARER_TOKEN" in
      if negb (truthy accessToken) && negb (truthy bearerToken) then None
      else Some {| PlatformConfig.apiKey := env "TWITTER_API_KEY";
                   PlatformConfig.apiSecret := env "TWITTER_API_SECRET";
                   PlatformConfig.accessToken := or_str accessToken "";
                   PlatformConfig.accessSecret := env "TWITTER_ACCESS_SECRET";
                   PlatformConfig.bearerToken := bearerToken;
                   PlatformConfig.clientId := None;
                   PlatformConfig.clientSecret := None;
                   PlatformConfig.userId := None;
                   PlatformConfig.appId := None;
                   PlatformConfig.redirectUri := None |}
  | INSTAGRAM =>
      let accessToken := env "INSTAGRAM_ACCESS_TOKEN" in
      let userId := env "INSTAGRAM_USER_ID" in
      if negb (truthy accessToken) || negb (truthy userId) then None
      else Some {| PlatformConfig.apiKey := None;
                   PlatformConfig.apiSecret := env "INSTAGRAM_APP_SECRET";
                   PlatformConfig.accessToken := or_str accessToken "";
                   PlatformConfig.accessSecret := None;
                   PlatformConfig.bearerToken := None;
                   PlatformConfig.clientId := None;
                   PlatformConfig.clientSecret := None;
                   PlatformConfig.userId := userId;
                   PlatformConfig.appId := env "INSTAGRAM_APP_ID";
                   PlatformConfig.redirectUri := None |}
  | LINKEDIN =>
      let accessToken := env "LINKEDIN_ACCESS_TOKEN" in
      if negb (truthy accessToken) then None
      else Some {| PlatformConfig.apiKey := None;
                   PlatformConfig.apiSecret := None;
                   PlatformConfig.accessToken := or_str accessToken "";
                   PlatformConfig.accessSecret := None;
                   PlatformConfig.bearerToken := None;
                   PlatformConfig.clientId := env "LINKEDIN_CLIENT_ID";
                   PlatformConfig.clientSecret := env "LINKEDIN_CLIENT_SECRET";
                   PlatformConfig.userId := None;
                   PlatformConfig.appId := None;
                   PlatformConfig.redirectUri := env "LINKEDIN_REDIRECT_URI" |}
  end.

(* ===================================================================== *)
(** ** src/cli/utils.ts *)
(* ===================================================================== *)



Definition is_space (c : ascii) : bool :=
  let n := nat_of_ascii c in
  (Nat.eqb n 32 || (Nat.leb 9 n && Nat.leb n 13))%bool.

Fixpoint trimStart (s : string) : string :=
  match s with
  | EmptyString => EmptyString
  | String c s' => if is_space c then trimStart s' else s
  end.

Fixpoint trimEnd (s : string) : string :=
  match s with
  | EmptyString => EmptyString
  | String c s' =>
      match trimEnd s' with
      | EmptyString => if is_space c then EmptyString else String c EmptyString
      | t => String c t
      end
  end.

Definition trim (s : string) : string := trimEnd (trimStart s).



(** The [switch] of [getPlatformInstance]. *)
Definition construct (platform : Platform) (config : PlatformConfig.t) : SocialPlatform :=
  match platform with
  | TWITTER => Twitter (TwitterPlatform.new config)
  | INSTAGRAM => Instagram (InstagramPlatform.new config)
  | LINKEDIN => LinkedIn (LinkedInPlatform.new config)
  end.

Section Cli.
Variable toLocaleTimeString : Date -> string.
Variable vendor : Vendor.
Variable env : Env.

Definition getPlatformInstance (platform : Platform) (w : World)
    : (Err.t + SocialPlatform) * World :=
  match getCredentials env platform with
  | None =>
      (inl (plainError ("No credentials found for " ++ platform_str platform ++
                        ". Please run 'social-cli auth setup' first.")), w)
  | Some config =>
      match authenticate toLocaleTimeString vendor (construct platform config) w with
      | (inr _, platformInstance, w') => (inr platformInstance, w')
      | (inl e, _, w') => (inl e, w')
      end
  end.



End Cli.

(* ===================================================================== *)
(** ** src/cli/commands/post.ts *)
(* ===================================================================== *)

Module PostCommandOptions.
Record t : Type := mk {
  platform : string;
  media : option string;
  link : option string;
  linkTitle : option string;
  caption : option string
}.
End PostCommandOptions.

(** An element of the local array [results]. *)
Module PostResult.
Record t : Type := mk {
  platform : Platform;
  success : bool;
  error : option string;
  postId : option string
}.
End PostResult.

(** How a command ends: it returns, or it calls [process.exit]. *)
Inductive Ending (A : Type) : Type :=
| Returned (a : A)
| Exited (code : Z).
Arguments Returned {A} a.
Arguments Exited {A} code.


Section PostCommand.
Variable toLocaleTimeString : Date -> string.
Variable vendor : Vendor.
Variable env : Env.

(** The loop "Post to each platform": one [try]/[catch] per instance and one
    record pushed on either path. *)
Fixpoint post_each (platforms : list SocialPlatform) (postOptions : PostOptions.t)
    (w : World) : list PostResult.t * World :=
  match platforms with
  | [] => ([], w)
  | platform :: rest =>
      match post toLocaleTimeString vendor platform postOptions w with
      | (inr p, _, w') =>
          let (results, w'') := post_each rest postOptions w' in
          ({| PostResult.platform := getPlatform platform;
              PostResult.success := true;
              PostResult.error := None;
              PostResult.postId := Some (Post.id p) |} :: results, w'')
      | (inl error, _, w') =>
          let (results, w'') := post_each rest postOptions w' in
          ({| PostResult.platform := getPlatform platform;
              PostResult.success := false;
              PostResult.error := Err.message error;
              PostResult.postId := None |} :: results, w'')
      end
  end.


End PostCommand.

(** The two numbers of the summary line. *)
Definition successCount (results : list PostResult.t) : nat :=
  length (filter PostResult.success results).

Definition totalCount (results : list PostResult.t) : nat := length results.


(* ===================================================================== *)
(** ** src/auth/storage.ts: the .env file *)
(* ===================================================================== *)

(** [s.split(sep)] for a separator of one character, and [l.join(sep)]. *)
Fixpoint split_at (sep : ascii) (s : string) : list string :=
  match s with
  | EmptyString => [EmptyString]
  | String c s' =>
      if Ascii.eqb c sep then EmptyString :: split_at sep s'
      else match split_at sep s' with
           | piece :: rest => String c piece :: rest
           | [] => [String c EmptyString]
           end
  end.

Fixpoint join (sep : string) (l : list string) : string :=
  match l with
  | [] => EmptyString
  | [piece] => piece
  | piece :: rest => piece ++ sep ++ join sep rest
  end.

Definition upper_ascii (c : ascii) : ascii :=
  let n := nat_of_ascii c in
  if (Nat.leb 97 n && Nat.leb n 122)%bool then ascii_of_nat (n - 32) else c.

Fixpoint toUpperCase (s : string) : string :=
  match s with
  | EmptyString => EmptyString
  | String c s' => String (upper_ascii c) (toUpperCase s')
  end.

(** The file .env of the project root: its content when it exists. *)
Definition EnvFile : Type := option string.

(** [process.env[key] = value]. *)
Definition set_env (env : Env) (entry : string * string) : Env :=
  fun key => if String.eqb key (fst entry) then Some (snd entry) else env key.

(** The assignment the loop of [loadEnv] makes for a line, if any; [trim]
    is the one of utils.ts above, on the ASCII range. *)
Definition parse_line (line : string) : option (string * string) :=
  let trimmed := trim line in
  if nonempty trimmed && negb (String.prefix "#" trimmed)
  then match split_at "=" trimmed with
       | key :: valueParts =>
           if nonempty key && negb (Nat.eqb (length valueParts) 0)
           then Some (trim key, trim (join "=" valueParts))
           else None
       | [] => None
       end
  else None.

Definition load_line (env : Env) (line : string) : Env :=
  match parse_line line with
  | Some entry => set_env env entry
  | None => env
  end.

(** [loadEnv()]: [process.env] after the call. *)
Definition loadEnv (file : EnvFile) (env : Env) : Env :=
  match file with
  | Some envContent => fold_left load_line (split_at (ascii_of_nat 10) envContent) env
  | None => env
  end.

(** The prefix [`${upperPlatform}_`] of the variables of a platform. *)
Definition variable_prefix (platform : Platform) : string :=
  toUpperCase (platform_str platform) ++ "_".

(** The filter of [saveCredentials]: the line is one of the platform's. *)
Definition own_line (platform : Platform) (line : string) : bool :=
  String.prefix (variable_prefix platform) (trim line).

(** [if (value) newLines.push(`${key}=${value}`)], as key and value. *)
Definition entry (key : string) (value : option string) : list (string * string) :=
  if truthy value then [(key, or_str value "")] else [].

Definition entries (platform : Platform) (config : PlatformConfig.t)
    : list (string * string) :=
  match platform with
  | TWITTER =>
      entry "TWITTER_API_KEY" (PlatformConfig.apiKey config) ++
      entry "TWITTER_API_SECRET" (PlatformConfig.apiSecret config) ++
      entry "TWITTER_ACCESS_TOKEN" (Some (PlatformConfig.accessToken config)) ++
      entry "TWITTER_ACCESS_SECRET" (PlatformConfig.accessSecret config) ++
      entry "TWITTER_BEARER_TOKEN" (PlatformConfig.bearerToken config)
  | INSTAGRAM =>
      entry "INSTAGRAM_ACCESS_TOKEN" (Some (PlatformConfig.accessToken config)) ++
      entry "INSTAGRAM_USER_ID" (PlatformConfig.userId config) ++
      entry "INSTAGRAM_APP_ID" (PlatformConfig.appId config) ++
      entry "INSTAGRAM_APP_SECRET" (PlatformConfig.apiSecret config)
  | LINKEDIN =>
      entry "LINKEDIN_CLIENT_ID" (PlatformConfig.clientId config) ++
      entry "LINKEDIN_CLIENT_SECRET" (PlatformConfig.clientSecret config) ++
      entry "LINKEDIN_ACCESS_TOKEN" (Some (PlatformConfig.accessToken config)) ++
      entry "LINKEDIN_REDIRECT_URI" (PlatformConfig.redirectUri config)
  end%list.

(** The comment line that opens the block of a platform. *)
Definition header (platform : Platform) : string :=
  match platform with
  | TWITTER => "# X/Twitter API Credentials"
  | INSTAGRAM => "# Instagram Graph API Credentials"
  | LINKEDIN => "# LinkedIn API Credentials"
  end.

Definition newLines (platform : Platform) (config : PlatformConfig.t) : list string :=
  header platform ::
  map (fun e : string * string => fst e ++ "=" ++ snd e) (entries platform config).

(** [saveCredentials(platform, config)]: the file after the call. *)
Definition saveCredentials (platform : Platform) (config : PlatformConfig.t)
    (file : EnvFile) : EnvFile :=
  let envContent := match file with Some content => content | None => "" end in
  let lines := split_at (ascii_of_nat 10) envContent in
  let filteredLines := filter (fun line => negb (own_line platform line)) lines in
  Some (join nl (filteredLines ++ [""] ++ newLines platform config)%list).

(** The filter of [deleteCredentials]: the line is kept. *)
Definition kept_line (platform : Platform) (line : string) : bool :=
  let trimmed := trim line in
  let upperPlatform := toUpperCase (platform_str platform) in
  negb (String.prefix (upperPlatform ++ "_") trimmed) &&
  negb (String.prefix ("# " ++ platform_str platform) trimmed) &&
  negb (String.prefix ("# " ++ upperPlatform) trimmed).

(** [deleteCredentials(platform)]: the file after the call. *)
Definition deleteCredentials (platform : Platform) (file : EnvFile) : EnvFile :=
  match file with
  | None => None
  | Some envContent =>
      Some (join nl (filter (kept_line platform) (split_at (ascii_of_nat 10) envContent)))
  end.

(** [getCredentials(platform)] with the [loadEnv()] it starts with, on the
    file and the environment of the process. *)
Definition storedCredentials (file : EnvFile) (env : Env) (platform : Platform)
    : option PlatformConfig.t :=
  getCredentials (loadEnv file env) platform.

Definition hasCredentials (file : EnvFile) (env : Env) (platform : Platform) : bool :=
  match storedCredentials file env platform with
  | Some _ => true
  | None => false
  end.

(* ===================================================================== *)
(** ** src/cli/commands/engage.ts *)
(* ===================================================================== *)

Module EngageCommandOptions.
Record t : Type := mk {
  platform : string;
  comment : option string
}.
End EngageCommandOptions.


Section EngageCommand.
Variable toLocaleTimeString : Date -> string.
Variable vendor : Vendor.
Variable env : Env.


End EngageCommand.

(* ===================================================================== *)
(** ** src/cli/quote-mentions.ts *)
(* ===================================================================== *)

Module QuoteMentions.

Definition HANDLE : string := "hailo_berto".
Definition REPLIES_LIMIT : Z := 3.
Definition MENTIONS_PER_BATCH : nat := 40.

(** The requests [main] makes on its client. *)
Inductive Request : Type :=
| UserByUsername (username : string)
| UserMentionTimeline (userId : string) (max_results : Z)
| QuoteTweet (text quote_tweet_id : string).

(** What the client answers: [user.data.id], [mentions.data.data], the
    tweet created. *)
Definition Answer (r : Request) : Type :=
  match r with
  | UserByUsername _ => string
  | UserMentionTimeline _ _ => option (list TweetV2.t)
  | QuoteTweet _ _ => string
  end.

Definition Client : Type := list Request -> forall r : Request, Err.t + Answer r.

(** The requests made so far and the time spent in [delay]. *)
Record Run : Type := mkRun {
  requests : list Request;
  waited : Z
}.

Definition begin : Run := mkRun [] 0.

Definition send (client : Client) (r : Request) (run : Run) : (Err.t + Answer r) * Run :=
  (client (requests run) r, mkRun (requests run ++ [r]) (waited run)).

Definition delay (ms : Z) (run : Run) : Run := mkRun (requests run) (waited run + ms).

(** The lines of the handles file that are kept. *)
Definition handles_of (handlesContent : string) : list string :=
  filter (fun line => nonempty line && negb (String.prefix "#" line) && String.prefix "@" line)
         (map trim (split_at (ascii_of_nat 10) handlesContent)).

(** [l.slice(i, j)] for [i <= j]. *)
Definition slice {A} (i j : nat) (l : list A) : list A := firstn (j - i) (skipn i l).

(** The loop that fills [batches], from index [i] on; it runs at most once
    for each handle. *)
Fixpoint batch_loop (fuel i : nat) (allHandles : list string) : list (list string) :=
  match fuel with
  | O => []
  | S fuel' =>
      if Nat.ltb i (length allHandles)
      then slice i (i + MENTIONS_PER_BATCH) allHandles
             :: batch_loop fuel' (i + MENTIONS_PER_BATCH) allHandles
      else []
  end.

Definition batches_of (allHandles : list string) : list (list string) :=
  batch_loop (length allHandles) 0 allHandles.

(** The loop over the batches for one reply, from the batch at hand on: a
    tweet that is refused with code 429 is tried again after a minute, any
    other refusal is reported and the loop goes on.  [fuel] bounds the
    number of requests; [None] when it does not suffice. *)
Fixpoint quote_batches (fuel : nat) (client : Client) (tweetId : string)
    (moreReplies : bool) (batches : list (list string)) (quoteCount : nat) (run : Run)
    : option (nat * Run) :=
  match fuel with
  | O => match batches with [] => Some (quoteCount, run) | _ => None end
  | S fuel' =>
      match batches with
      | [] => Some (quoteCount, run)
      | batch :: rest =>
          match send client (QuoteTweet (join " " batch) tweetId) run with
          | (inr _, run') =>
              quote_batches fuel' client tweetId moreReplies rest (S quoteCount)
                (if negb (Nat.eqb (length rest) 0) || moreReplies
                 then delay 2000 run' else run')
          | (inl error, run') =>
              if code_is (Err.code error) 429
              then quote_batches fuel' client tweetId moreReplies (batch :: rest)
                     quoteCount (delay 60000 run')
              else quote_batches fuel' client tweetId moreReplies rest quoteCount run'
          end
      end
  end.

(** The loop "Process each reply". *)
Fixpoint quote_replies (fuel : nat) (client : Client) (tweets : list TweetV2.t)
    (batches : list (list string)) (quoteCount : nat) (run : Run) : option (nat * Run) :=
  match tweets with
  | [] => Some (quoteCount, run)
  | tweet :: rest =>
      match quote_batches fuel client (TweetV2.id tweet)
              (negb (Nat.eqb (length rest) 0)) batches quoteCount run with
      | Some (quoteCount', run') => quote_replies fuel client rest batches quoteCount' run'
      | None => None
      end
  end.

(** [main()], given the handles file when it exists; it returns
    [quoteCount], or exits.  [fuel] bounds the requests made for one reply. *)
Definition main (fuel : nat) (client : Client) (handlesFile : option string)
    : option (Ending nat * Run) :=
  match send client (UserByUsername HANDLE) begin with
  | (inl _, run) => Some (Exited 1, run)
  | (inr userId, run) =>
      match send client (UserMentionTimeline userId REPLIES_LIMIT) run with
      | (inl _, run') => Some (Exited 1, run')
      | (inr data, run') =>
          match or_nil data with
          | [] => Some (Returned 0%nat, run')
          | tweets =>
              match handlesFile with
              | None => Some (Exited 1, run')
              | Some handlesContent =>
                  let allHandles := handles_of handlesContent in
                  let batches := batches_of allHandles in
                  match quote_replies fuel client tweets batches 0 run' with
                  | Some (quoteCount, run'') => Some (Returned quoteCount, run'')
                  | None => None
                  end
              end
          end
      end
  end.



(** The client refuses every quote tweet with code 429. *)
Definition always_throttles (client : Client) : Prop :=
  forall log text id,
    exists error, client log (QuoteTweet text id) = inl error /\
                  code_is (Err.code error) 429 = true.

End QuoteMentions.

(* ===================================================================== *)
(** ** Notions used in the statements *)
(* ===================================================================== *)

(** A thrown value carries the HTTP status [s]: one of the two fields the
    handler inspects holds it, and neither holds another classified status. *)
Definition carries_status (error : Err.t) (s : Z) : Prop :=
  status_is error s = true /\
  forall s', In s' classified_statuses -> status_is error s' = true -> s' = s.

(** The vendor payload has the credits marker. *)
Definition credits_marker (error : Err.t) : bool :=
  match Err.data_title error with
  | Some title => String.eqb title "CreditsDepleted"
  | None => false
  end.


(** The instance holds a client: [this.client] is set (and, for LinkedIn,
    [this.profileId] as well), as after a successful [authenticate()]. *)
Definition has_session (a : SocialPlatform) : bool :=
  match a with
  | Twitter s =>
      match TwitterPlatform.client s with Some _ => true | None => false end
  | Instagram s =>
      match InstagramPlatform.client s with Some _ => true | None => false end
  | LinkedIn s =>
      match LinkedInPlatform.session s with Some _ => true | None => false end
  end.

(** The message with which an operation is refused on an instance on which
    [authenticate()] was never called ([new], then the operation). *)
Definition not_authenticated_message (platform : Platform) (op : Operation) : string :=
  match platform, op with
  | TWITTER, CreatePost _ | TWITTER, Engage _ => TwitterPlatform.no_write_access
  | _, _ => "Not authenticated"
  end.


(** The inputs the Instagram and LinkedIn adapters reject before any call,
    with the message: a comment or reply without text, an Instagram post
    without media. *)
Definition missing_input_message (platform : Platform) (op : Operation) : option string :=
  match platform, op with
  | INSTAGRAM, Engage options | LINKEDIN, Engage options =>
      match EngagementOptions.action options with
      | COMMENT | REPLY =>
          if truthy (EngagementOptions.commentText options) then None
          else Some "Comment text is required"
      | _ => None
      end
  | INSTAGRAM, CreatePost options =>
      if negb (truthy (PostOptions.mediaPath options))
         && negb (truthy (first_of (PostOptions.mediaUrls options)))
      then Some "Instagram requires an image or video URL to post"
      else None
  | _, _ => None
  end.

(** A method keeps a relation between the fields before and after it,
    whether it returns or throws. *)
Definition preserves {St A} (R : St -> St -> Prop) (m : M St A) : Prop :=
  forall s w, R s (fields (m s w)).

(** The relation "same [config]" on the instances of each class. *)
Definition same_twitter_config (s s' : TwitterPlatform.t) : Prop :=
  TwitterPlatform.config s' = TwitterPlatform.config s.

Definition same_instagram_config (s s' : InstagramPlatform.t) : Prop :=
  InstagramPlatform.config s' = InstagramPlatform.config s.

Definition same_linkedin_config (s s' : LinkedInPlatform.t) : Prop :=
  LinkedInPlatform.config s' = LinkedInPlatform.config s.

(** The client that [TwitterPlatform.authenticate] builds from a config. *)
Definition twitter_client_for (c : PlatformConfig.t) : option TwitterPlatform.TwitterApi :=
  if truthy (PlatformConfig.apiKey c) && truthy (PlatformConfig.apiSecret c)
     && nonempty (PlatformConfig.accessToken c) && truthy (PlatformConfig.accessSecret c)
  then Some (TwitterPlatform.UserContext
               (or_str (PlatformConfig.apiKey c) "") (or_str (PlatformConfig.apiSecret c) "")
               (PlatformConfig.accessToken c) (or_str (PlatformConfig.accessSecret c) ""))
  else if truthy (PlatformConfig.bearerToken c)
  then Some (TwitterPlatform.AppOnly (or_str (PlatformConfig.bearerToken c) ""))
  else None.

(** The client of the instance is the one its constructor call in
    [authenticate] makes out of the stored config. *)
Definition client_from_config (a : SocialPlatform) : Prop :=
  match a with
  | Twitter s =>
      TwitterPlatform.client s <> None /\
      TwitterPlatform.client s = twitter_client_for (TwitterPlatform.config s)
  | Instagram s =>
      InstagramPlatform.client s =
        Some (InstagramPlatform.mkClient InstagramPlatform.baseUrl
                (PlatformConfig.accessToken (InstagramPlatform.config s)))
  | LinkedIn s =>
      LinkedInPlatform.client s =
        Some (LinkedInPlatform.mkClient LinkedInPlatform.baseUrl
                ("Bearer " ++ PlatformConfig.accessToken (LinkedInPlatform.config s)))
  end.

(** The log at which [TwitterPlatform.post] sends the tweet: the uploads of
    the media, if any, come first. *)
Definition tweet_log (o : PostOptions.t) (w : World) : list Call :=
  match PostOptions.mediaUrls o with
  | Some (mediaUrl :: rest) => (log w ++ map TwUploadMedia (mediaUrl :: rest))%list
  | _ => log w
  end.

(** The Post that [post] returned is what the vendor reported for the text
    the adapter sent: Twitter sends [text] and maps the tweet it then looks
    up; Instagram sends [caption || text] as caption with the media URL and
    maps the media it then fetches; LinkedIn sends [text] and builds the Post
    from its own argument and the id returned. *)
Definition reported_by (vendor : Vendor) (a : SocialPlatform) (o : PostOptions.t)
    (w : World) (p : Post.t) : Prop :=
  match a with
  | Twitter _ =>
      exists media id lookup,
        let tweet := TwTweet (or_str (PostOptions.text o) "") media in
        vendor (tweet_log o w) tweet = inr id /\
        vendor (tweet_log o w ++ [tweet])%list (TwSingleTweet id) = inr lookup /\
        p = mapTwitterTweetToPost (now w) (TweetLookup.data lookup)
                                  (TweetLookup.includes lookup)
  | Instagram s =>
      exists mediaUrl containerId mediaId media,
        let userId := PlatformConfig.userId (InstagramPlatform.config s) in
        let container :=
          IgCreateContainer userId mediaUrl
            (or_str (or_else (PostOptions.caption o) (PostOptions.text o)) "") in
        vendor (log w) container = inr containerId /\
        vendor (log w ++ [container])%list (IgPublish userId containerId) = inr mediaId /\
        vendor (log w ++ [container; IgPublish userId containerId])%list
               (IgGetMedia mediaId) = inr media /\
        Post.id p = InstagramMedia.id media /\
        Post.content p = or_str (InstagramMedia.caption media) ""
  | LinkedIn s =>
      exists profileId article,
        LinkedInPlatform.session s = Some profileId /\
        vendor (log w)
               (LiCreateUgcPost (LinkedInPlatform.person_urn profileId)
                                (or_str (PostOptions.text o) "") article)
          = inr (Post.id p) /\
        Post.content p = or_str (PostOptions.text o) ""
  end.

(** The texts of the items with which the vendor answers the feed request of
    [getFeed] issued in world [w]. *)
Definition feed_texts (vendor : Vendor) (a : SocialPlatform) (options : FeedOptions.t)
    (w : World) : list string :=
  match a with
  | Twitter _ =>
      match vendor (log w ++ [TwMe])%list
                   (TwHomeTimeline (or_num (FeedOptions.limit options) 20) false) with
      | inr page => map TweetV2.text (or_nil (TweetPage.data page))
      | inl _ => []
      end
  | Instagram s =>
      match vendor (log w)
                   (IgListMedia (PlatformConfig.userId (InstagramPlatform.config s))
                                (or_num (FeedOptions.limit options) 20)) with
      | inr response =>
          map (fun media => or_str (InstagramMedia.caption media) "") (or_nil response)
      | inl _ => []
      end
  | LinkedIn s =>
      match LinkedInPlatform.session s with
      | Some profileId =>
          match vendor (log w)
                       (LiListUgcPosts ("List(" ++ LinkedInPlatform.person_urn profileId ++ ")")
                                       (or_num (FeedOptions.limit options) 20)) with
          | inr response =>
              map (fun post => or_str (or_else (LinkedInPost.text_text post)
                                               (LinkedInPost.commentary post)) "")
                  (or_nil response)
          | inl _ => []
          end
      | None => []
      end
  end.



(** [l1] is [l2] with some elements left out. *)
Inductive subseq {A : Type} : list A -> list A -> Prop :=
| subseq_nil : subseq [] []
| subseq_skip x l1 l2 : subseq l1 l2 -> subseq l1 (x :: l2)
| subseq_keep x l1 l2 : subseq l1 l2 -> subseq (x :: l1) (x :: l2).

(** The optional [mediaUrls] of a Post is absent or a non-empty list of
    non-empty strings. *)
Definition media_well_formed (p : Post.t) : Prop :=
  match Post.mediaUrls p with
  | None => True
  | Some urls => urls <> [] /\ Forall (fun u => nonempty u = true) urls
  end.

(** The call with which [getMe] probes the identity. *)
Definition probe (a : SocialPlatform) : Call :=
  match a with
  | Twitter _ => TwMe
  | Instagram s => IgGetUser (PlatformConfig.userId (InstagramPlatform.config s))
  | LinkedIn _ => LiMe
  end.

(** A record of [results] is either a success with its post id or a failure
    with a non-empty error message. *)
Definition record_well_formed (r : PostResult.t) : Prop :=
  if PostResult.success r
  then PostResult.error r = None /\ PostResult.postId r <> None
  else PostResult.postId r = None /\
       exists m, PostResult.error r = Some m /\ nonempty m = true.

(** The variable belongs to the platform: its name starts with the prefix. *)
Definition own_key (platform : Platform) (key : string) : bool :=
  String.prefix (variable_prefix platform) key.

(** The environment of the process holds no variable of the platform. *)
Definition no_variable_of (platform : Platform) (env : Env) : Prop :=
  forall key, own_key platform key = true -> env key = None.

Fixpoint contains_char (c : ascii) (s : string) : bool :=
  match s with
  | EmptyString => false
  | String c' s' => Ascii.eqb c' c || contains_char c s'
  end.

Fixpoint ascii_only (s : string) : bool :=
  match s with
  | EmptyString => true
  | String c s' => Nat.ltb (nat_of_ascii c) 128 && ascii_only s'
  end.

(** A value that a line of the file can hold: ASCII text on one line,
    without white space at either end. *)
Definition storable (value : string) : Prop :=
  ascii_only value = true /\ contains_char (ascii_of_nat 10) value = false /\
  trim value = value.

(** Every value that [saveCredentials] writes for the platform is storable. *)
Definition storable_config (platform : Platform) (config : PlatformConfig.t) : Prop :=
  Forall (fun e : string * string => storable (snd e)) (entries platform config).

(** An absent field and an empty one read the same. *)
Definition present (value : option string) : option string :=
  if truthy value then value else None.

(** The config read back: the fields the platform stores, an empty one
    absent. *)
Definition stored_fields (platform : Platform) (config : PlatformConfig.t)
    : PlatformConfig.t :=
  match platform with
  | TWITTER =>
      PlatformConfig.mk (present (PlatformConfig.apiKey config))
        (present (PlatformConfig.apiSecret config)) (PlatformConfig.accessToken config)
        (present (PlatformConfig.accessSecret config))
        (present (PlatformConfig.bearerToken config)) None None None None None
  | INSTAGRAM =>
      PlatformConfig.mk None (present (PlatformConfig.apiSecret config))
        (PlatformConfig.accessToken config) None None None None
        (present (PlatformConfig.userId config)) (present (PlatformConfig.appId config)) None
  | LINKEDIN =>
      PlatformConfig.mk None None (PlatformConfig.accessToken config) None None
        (present (PlatformConfig.clientId config))
        (present (PlatformConfig.clientSecret config)) None None
        (present (PlatformConfig.redirectUri config))
  end.

(** The credentials suffice for [getCredentials] to return a config. *)
Definition sufficient (platform : Platform) (config : PlatformConfig.t) : bool :=
  match platform with
  | TWITTER =>
      nonempty (PlatformConfig.accessToken config) || truthy (PlatformConfig.bearerToken config)
  | INSTAGRAM =>
      nonempty (PlatformConfig.accessToken config) && truthy (PlatformConfig.userId config)
  | LINKEDIN => nonempty (PlatformConfig.accessToken config)
  end.

(** A prefix made of characters that are neither white space nor [=]. *)
Fixpoint solid (s : string) : bool :=
  match s with
  | EmptyString => true
  | String c s' => negb (is_space c) && negb (Ascii.eqb c "=") && solid s'
  end.




(* ===================================================================== *)
(** ** Concrete data for the scenarios *)
(* ===================================================================== *)

Definition clock_text : Date -> string := fun _ => "12:00:00".

Definition start : World := mkWorld [] 1000.

Definition network_error : Err.t := plainError "Network Error".

(** A vendor that is down. *)
Definition offline : Vendor := fun _ c => inl network_error.

Definition twitter_config : PlatformConfig.t :=
  PlatformConfig.mk (Some "key") (Some "secret") "token" (Some "token-secret")
                    None None None None None None.

Definition instagram_config : PlatformConfig.t :=
  PlatformConfig.mk None None "ig-token" None None None None (Some "17841400000")
                    None None.

Definition linkedin_config : PlatformConfig.t :=
  PlatformConfig.mk None None "li-token" None None None None None None None.

Definition twitter_ready : TwitterPlatform.t :=
  TwitterPlatform.set_both
    (TwitterPlatform.UserContext "key" "secret" "token" "token-secret")
    (TwitterPlatform.new twitter_config).

Definition instagram_ready : InstagramPlatform.t :=
  InstagramPlatform.set_client
    (InstagramPlatform.mkClient InstagramPlatform.baseUrl "ig-token")
    (InstagramPlatform.new instagram_config).


Definition twitter_me : UserV2.t :=
  UserV2.mk "2244994945" "hailo_berto" "Hailo" None None None None None.

Definition linkedin_me : LinkedInProfile.t :=
  LinkedInProfile.mk "abc123" "Hailo" "Berto" None None.


(** A vendor error: 429 with the reset time the vendor supplies (epoch seconds). *)
Definition too_many_requests : Err.t :=
  Err.mk (Some "Request failed with code 429") (Some (CNum 429)) None (Some 1700000000)
         None None None None None.

(** A vendor error: 403. *)
Definition forbidden : Err.t :=
  Err.mk (Some "Request failed with code 403") (Some (CNum 403)) None None
         None (Some "You are not permitted to perform this action.") None None None.

(** Twitter answers the identity probe and throttles nothing else. *)
Definition twitter_up : Vendor := fun _ c =>
  match c return Err.t + Resp c with
  | TwMe => inr twitter_me
  | TwLike _ _ => inr tt
  | _ => inl network_error
  end.

(** Twitter throttles every call, and says until when. *)
Definition twitter_throttled : Vendor := fun _ c => inl too_many_requests.

(** Every identity probe succeeds; Twitter refuses to create the tweet,
    LinkedIn creates the share. *)
Definition twitter_refuses_linkedin_accepts : Vendor := fun _ c =>
  match c return Err.t + Resp c with
  | TwMe => inr twitter_me
  | TwTweet _ _ => inl forbidden
  | LiMe => inr linkedin_me
  | LiCreateUgcPost _ _ _ => inr "urn:li:share:7"
  | _ => inl network_error
  end.


Definition env_linkedin_only : Env := fun key =>
  if String.eqb key "LINKEDIN_ACCESS_TOKEN" then Some "li-token" else None.


Definition hello : PostOptions.t :=
  PostOptions.mk (Some "hello") None None None None None.


Definition comment_without_text : EngagementOptions.t :=
  EngagementOptions.mk "42" COMMENT None.

Definition hello_tweet : TweetV2.t :=
  TweetV2.mk "1460323737035677698" "hello" (Some "2244994945") None None None None None.

Definition with_author : option Includes.t :=
  Some (Includes.mk (Some [twitter_me]) None).

(** Twitter accepts the tweet and reports it back, on lookup and on the home
    timeline. *)
Definition twitter_echoes_hello : Vendor := fun _ c =>
  match c return Err.t + Resp c with
  | TwMe => inr twitter_me
  | TwTweet _ _ => inr "1460323737035677698"
  | TwSingleTweet _ => inr (TweetLookup.mk hello_tweet with_author)
  | TwHomeTimeline _ _ => inr (TweetPage.mk (Some [hello_tweet]) with_author)
  | _ => inl network_error
  end.

(** Twitter credentials for app-only access. *)
Definition twitter_bearer_config : PlatformConfig.t :=
  PlatformConfig.mk None None "" None (Some "bearer") None None None None None.

(** [process.env] with a Twitter access token and nothing else. *)
Definition env_twitter_token_only : Env := fun key =>
  if String.eqb key "TWITTER_ACCESS_TOKEN" then Some "token" else None.



(** A file .env that holds an old Twitter key and a variable of the user. *)
Definition old_file : EnvFile := Some ("TWITTER_API_KEY=old" ++ nl ++ "EDITOR=vi").


(** A client that finds the user and one reply, and accepts what it is sent;
    one that throttles every quote tweet. *)
Definition one_reply : option (list TweetV2.t) := Some [hello_tweet].


Definition throttling : QuoteMentions.Client := fun _ r =>
  match r return Err.t + QuoteMentions.Answer r with
  | QuoteMentions.UserByUsername _ => inr "2244994945"
  | QuoteMentions.UserMentionTimeline _ _ => inr one_reply
  | QuoteMentions.QuoteTweet _ _ => inl too_many_requests
  end.

Definition two_handles : string := "@alice" ++ nl ++ "# a comment" ++ nl ++ "@bob".

(* ===================================================================== *)
(** ** The error handler *)
(* ===================================================================== *)

Lemma carries_status_other (error : Err.t) (s s' : Z) :
  carries_status error s -> In s' classified_statuses -> s' <> s ->
  status_is error s' = false.
Proof.
  intros [_ Honly] Hin Hne.
  destruct (status_is error s') eqn:E; [ | reflexivity ].
  exfalso. apply Hne. apply Honly; assumption.
Qed.

Ltac other_status H s' :=
  rewrite (carries_status_other _ _ s' H) by (simpl; lia || (intuition lia)).

(** The handler on a thrown value that carries one classified status. *)
Lemma handleError_429 fmt (platform : Platform) (now : Z) (error : Err.t) :
  status_is error 429 = true ->
  handleError fmt platform now error =
    let reset := DateOfMillis (match Err.rateLimit_reset error with
                               | Some r => if r =? 0 then now + fifteen_minutes else r * 1000
                               | None => now + fifteen_minutes
                               end) in
    createError platform (rate_limit_message platform (fmt reset))
                (Some (CNum 429)) (Some reset).
Proof.
  intros H. unfold handleError. rewrite H.
  destruct (Err.rateLimit_reset error) as [r |]; [ destruct (r =? 0) | ]; reflexivity.
Qed.

Lemma handleError_401 fmt (platform : Platform) (now : Z) (error : Err.t) :
  carries_status error 401 ->
  handleError fmt platform now error =
    createError platform (authentication_message platform) (Some (CNum 401)) None.
Proof.
  intros H. unfold handleError.
  other_status H 429. destruct H as [H _]. rewrite H. reflexivity.
Qed.

Lemma handleError_403 fmt (platform : Platform) (now : Z) (error : Err.t) :
  carries_status error 403 ->
  handleError fmt platform now error =
    createError platform
      (permission_message platform
         (or_str (or_else (Err.data_detail error) (Err.data_errors0_message error)) ""))
      (Some (CNum 403)) None.
Proof.
  intros H. unfold handleError.
  other_status H 429. other_status H 401. destruct H as [H _]. rewrite H. reflexivity.
Qed.

Lemma handleError_402 fmt (platform : Platform) (now : Z) (error : Err.t) :
  carries_status error 402 ->
  handleError fmt platform now error =
    createError platform
      (if credits_marker error then credits_message else payment_message platform)
      (Some (CNum 402)) None.
Proof.
  intros H. unfold handleError, credits_marker.
  other_status H 429. other_status H 401. other_status H 403.
  destruct H as [H _]. rewrite H.
  destruct (Err.data_title error) as [t |]; [ destruct (String.eqb t _) | ]; reflexivity.
Qed.

(** The status code of the error raised is the status carried. *)
Lemma handleError_status_code fmt (platform : Platform) (now : Z) (error : Err.t) (s : Z) :
  In s classified_statuses ->
  carries_status error s ->
  Err.statusCode (handleError fmt platform now error) = Some (CNum s).
Proof.
  intros Hin H. simpl in Hin.
  destruct Hin as [<- | [<- | [<- | [<- | []]]]].
  - rewrite (handleError_401 _ _ _ _ H). reflexivity.
  - rewrite (handleError_402 _ _ _ _ H). reflexivity.
  - rewrite (handleError_403 _ _ _ _ H). reflexivity.
  - destruct H as [H _]. rewrite (handleError_429 _ _ _ _ H). reflexivity.
Qed.



(* ===================================================================== *)
(** ** Errors the adapters create themselves *)
(* ===================================================================== *)

(** An error made by [createError] without status code passes the handler
    unchanged, message included. *)
Lemma handleError_own_error fmt (platform : Platform) (now : Z) (c : ascii) (m : string) :
  handleError fmt platform now (createError platform (String c m) None None) =
  createError platform (String c m) None None.
Proof. reflexivity. Qed.

Lemma own_error_kind (platform : Platform) (message : string) :
  taxonomy_kind (createError platform message None None) = Unknown.
Proof. reflexivity. Qed.

(** C4 (amended).  On an instance that was only constructed, every operation
    other than authenticate fails without issuing a call and without
    touching the instance: it throws a [PlatformError] of the adapter's
    platform, without status code (taxonomy kind Unknown, not the 401 of
    AuthenticationFailed), whose message is 'Not authenticated', or, for post
    and engage on Twitter, 'Write access not available. Need OAuth 1.0a
    credentials.'. *)
Theorem unauthenticated_operation_fails fmt (vendor : Vendor) (platform : Platform)
    (config : PlatformConfig.t) (op : Operation) (w : World) :
  op <> Authenticate ->
  call fmt vendor (construct platform config) op w =
    (inl (createError platform (not_authenticated_message platform op) None None),
     construct platform config, w) /\
  taxonomy_kind (createError platform (not_authenticated_message platform op) None None)
    = Unknown.
Proof.
  intros Hop. split; [ | reflexivity ].
  destruct platform, op; try (exfalso; apply Hop; reflexivity); reflexivity.
Qed.

Lemma unauthenticated_operation_fails_witness :
  call clock_text offline (construct TWITTER twitter_config) (CreatePost hello) start =
    (inl (createError TWITTER TwitterPlatform.no_write_access None None),
     construct TWITTER twitter_config, start) /\
  taxonomy_kind (createError TWITTER TwitterPlatform.no_write_access None None) = Unknown.
Proof.
  apply (unauthenticated_operation_fails clock_text offline TWITTER twitter_config
           (CreatePost hello) start).
  discriminate.
Defined.

(** C4, as stated, fails: getMe on a freshly constructed Instagram adapter
    throws an error without status code, which is of kind Unknown and not
    AuthenticationFailed. *)
Lemma unauthenticated_getMe_is_not_AuthenticationFailed :
  outcome (call clock_text offline (construct INSTAGRAM instagram_config) GetMe start) =
    inl (createError INSTAGRAM "Not authenticated" None None) /\
  Err.statusCode (createError INSTAGRAM "Not authenticated" None None) = None /\
  taxonomy_kind (createError INSTAGRAM "Not authenticated" None None) = Unknown /\
  Unknown <> AuthenticationFailed.
Proof. repeat split. discriminate. Qed.

(** After an authenticate that failed at the identity probe the client is
    in place all the same: a later getMe goes to the network. *)
Example failed_authenticate_leaves_client :
  let failed := authenticate clock_text offline (construct INSTAGRAM instagram_config) start in
  outcome failed = inl (createError INSTAGRAM "Network Error" None None) /\
  fields failed = Instagram instagram_ready /\
  issued (world failed) (world (getMe clock_text offline (fields failed) (world failed)))
    = [IgGetUser (Some "17841400000")].
Proof. repeat split. Qed.

(** Case analysis on an instance that holds a session and on the operation:
    the fields are exposed and the cases without session are closed. *)
Ltac expose_session s :=
  match type of s with
  | TwitterPlatform.t => destruct s as [? [?|] ?]
  | InstagramPlatform.t => destruct s as [? [?|]]
  | LinkedInPlatform.t => destruct s as [? [?|] [[|? ?]|]]
  end; simpl in *; try discriminate.

Ltac session_cases a op :=
  destruct a as [s | s | s]; expose_session s;
  destruct op as [ | | o | o | o | o ]; simpl in *; try discriminate;
  repeat match goal with
         | o : EngagementOptions.t |- _ => destruct o as [? [] ?]; simpl in *
         end;
  try discriminate.




(* ===================================================================== *)
(** ** Checks made before any call *)
(* ===================================================================== *)

Lemma issued_nothing (w : World) : issued w w = [].
Proof. unfold issued. apply skipn_all. Qed.

(** C6 (amended).  On an Instagram or LinkedIn instance that holds a session,
    a comment or reply without comment text, and on Instagram a post with
    neither media path nor media URL, fails before any network call: the
    operation throws a [PlatformError] of the adapter's platform, without
    status code (taxonomy kind Unknown), with message 'Comment text is
    required', respectively 'Instagram requires an image or video URL to post',
    and the log of calls and the instance are as before. *)
Theorem missing_input_fails_before_any_call fmt (vendor : Vendor) (a : SocialPlatform)
    (op : Operation) (w : World) (message : string) :
  has_session a = true ->
  missing_input_message (getPlatform a) op = Some message ->
  call fmt vendor a op w = (inl (createError (getPlatform a) message None None), a, w) /\
  issued w (world (call fmt vendor a op w)) = [] /\
  taxonomy_kind (createError (getPlatform a) message None None) = Unknown.
Proof.
  intros Hs Hm.
  assert (Hcall : call fmt vendor a op w =
                  (inl (createError (getPlatform a) message None None), a, w)).
  { session_cases a op.
    all: try (destruct (truthy _) eqn:E in Hm; [ discriminate | ];
              injection Hm as <-;
              unfold call, engage, lift, as_value, InstagramPlatform.engage,
                LinkedInPlatform.engage, guarded, try_catch, bind, this; simpl;
              unfold EngagementOptions.commentText in *; rewrite E; reflexivity).
    destruct (negb _ && negb _)%bool eqn:E in Hm; [ | discriminate ].
    injection Hm as <-.
    unfold call, post, lift, as_value, InstagramPlatform.post,
      guarded, try_catch, bind, this; simpl.
    rewrite E. reflexivity. }
  rewrite Hcall. repeat split. apply issued_nothing.
Qed.

Lemma missing_input_fails_before_any_call_witness :
  call clock_text offline (Instagram instagram_ready) (CreatePost hello) start =
    (inl (createError INSTAGRAM "Instagram requires an image or video URL to post" None None),
     Instagram instagram_ready, start) /\
  issued start
    (world (call clock_text offline (Instagram instagram_ready) (CreatePost hello) start)) = [] /\
  taxonomy_kind
    (createError INSTAGRAM "Instagram requires an image or video URL to post" None None)
    = Unknown.
Proof.
  apply (missing_input_fails_before_any_call clock_text offline (Instagram instagram_ready)
           (CreatePost hello) start); reflexivity.
Defined.

(** C6, as stated, fails: on a Twitter instance with a session, a comment
    without text is rejected only after the identity probe [v2.me] has been
    sent, and the error thrown has no status code, so it is of kind Unknown
    and not ValidationFailed. *)
Lemma twitter_comment_without_text_calls_first :
  outcome (engage clock_text twitter_up (Twitter twitter_ready) comment_without_text start) =
    inl (createError TWITTER "Comment text is required for replies" None None) /\
  issued start
    (world (engage clock_text twitter_up (Twitter twitter_ready) comment_without_text start))
    = [TwMe] /\
  taxonomy_kind (createError TWITTER "Comment text is required for replies" None None)
    = Unknown /\
  Unknown <> ValidationFailed.
Proof. repeat split. discriminate. Qed.

(* ===================================================================== *)
(** ** The reset time of a rate-limit error *)
(* ===================================================================== *)

(** Handling a thrown value with status 429 once: the reset time is the
    vendor's, in milliseconds, when [rateLimit.reset] is set and not zero. *)
Lemma handleError_keeps_vendor_reset fmt (platform : Platform) (now : Z) (error : Err.t)
    (reset : Z) :
  status_is error 429 = true ->
  Err.rateLimit_reset error = Some reset ->
  reset <> 0 ->
  Err.rateLimitReset (handleError fmt platform now error) = Some (DateOfMillis (reset * 1000)).
Proof.
  intros H Hr Hz. rewrite (handleError_429 _ _ _ _ H). simpl. rewrite Hr.
  apply Z.eqb_neq in Hz. rewrite Hz. reflexivity.
Qed.

Lemma handleError_default_reset fmt (platform : Platform) (now : Z) (error : Err.t) :
  status_is error 429 = true ->
  Err.rateLimit_reset error = None ->
  Err.rateLimitReset (handleError fmt platform now error)
    = Some (DateOfMillis (now + 15 * 60 * 1000)).
Proof.
  intros H Hr. rewrite (handleError_429 _ _ _ _ H). simpl. rewrite Hr. reflexivity.
Qed.

(** Handling it a second time, as the [catch] of a method does with what a
    nested [getMe()] has thrown: the result of the first pass has status code
    429 and no [rateLimit] field, so the reset time becomes the default. *)
Lemma handleError_twice_forgets_reset fmt (platform : Platform) (now now' : Z)
    (error : Err.t) :
  status_is error 429 = true ->
  Err.rateLimitReset
    (handleError fmt platform now' (handleError fmt platform now error))
    = Some (DateOfMillis (now' + 15 * 60 * 1000)).
Proof.
  intros H. rewrite (handleError_429 _ _ _ _ H). reflexivity.
Qed.

(** Handled a second time, a classified error keeps its status code, hence
    its kind, but a 402 with the credits marker gets the generic message. *)
Lemma handled_error_carries_status fmt (platform : Platform) (now : Z) (error : Err.t)
    (s : Z) :
  In s classified_statuses -> carries_status error s ->
  carries_status (handleError fmt platform now error) s.
Proof.
  intros Hin H.
  pose proof (handleError_status_code fmt platform now error s Hin H) as Hs.
  assert (Hc : Err.code (handleError fmt platform now error) = None).
  { unfold handleError.
    repeat match goal with
           | |- context [if ?b then _ else _] => destruct b
           end; reflexivity. }
  unfold carries_status, status_is. rewrite Hs, Hc. simpl. split.
  - apply Z.eqb_refl.
  - intros s' _ H'. apply Z.eqb_eq in H'. congruence.
Qed.

Lemma handleError_twice_same_status fmt (platform : Platform) (now now' : Z)
    (error : Err.t) (s : Z) :
  In s classified_statuses -> carries_status error s ->
  Err.statusCode (handleError fmt platform now' (handleError fmt platform now error))
    = Some (CNum s).
Proof.
  intros Hin H.
  apply (handleError_status_code fmt platform now' _ s Hin).
  apply handled_error_carries_status; assumption.
Qed.

Lemma handleError_twice_forgets_credits fmt (platform : Platform) (now now' : Z)
    (error : Err.t) :
  carries_status error 402 ->
  Err.message (handleError fmt platform now' (handleError fmt platform now error))
    = Some (payment_message platform).
Proof.
  intros H. rewrite (handleError_402 _ _ _ _ H). reflexivity.
Qed.

(** C7.  The Twitter feed on an instance with a session, the vendor answering
    the identity probe with status 429 and the reset time 1700000000 (epoch
    seconds): the error thrown by [getFeed] is a rate-limit error whose reset
    time is the clock (1000) plus fifteen minutes, not the vendor's.  The
    handler applied once to the vendor's error, and [search], which calls the
    vendor without going through [getMe], keep the vendor's reset time. *)
Theorem nested_rate_limit_loses_vendor_reset :
  Err.rateLimit_reset too_many_requests = Some 1700000000 /\
  Err.rateLimitReset (handleError clock_text TWITTER 1000 too_many_requests)
    = Some (DateOfMillis 1700000000000) /\
  outcome (getFeed clock_text twitter_throttled (Twitter twitter_ready)
             FeedOptions.empty start)
    = inl (createError TWITTER (rate_limit_message TWITTER "12:00:00")
             (Some (CNum 429)) (Some (DateOfMillis (1000 + 15 * 60 * 1000)))) /\
  issued start (world (getFeed clock_text twitter_throttled (Twitter twitter_ready)
                         FeedOptions.empty start)) = [TwMe] /\
  outcome (search clock_text twitter_throttled (Twitter twitter_ready)
             (SearchOptions.mk "hello" None None None) start)
    = inl (createError TWITTER (rate_limit_message TWITTER "12:00:00")
             (Some (CNum 429)) (Some (DateOfMillis 1700000000000))).
Proof. repeat split. Qed.

(* ===================================================================== *)
(** ** Tweets whose author is not among the included users *)
(* ===================================================================== *)



(** A loop whose body only computes returns the mapped list. *)
Lemma for_each_pure {St A B} (f : A -> M St B) (g : World -> A -> B) (xs : list A)
    (s : St) (w : World) :
  (forall x s w, f x s w = (inr (g w x), s, w)) ->
  for_each f xs s w = (inr (map (g w) xs), s, w).
Proof.
  intros Hf. induction xs as [| x xs IH]; [ reflexivity | ].
  simpl. unfold bind. rewrite Hf, IH. reflexivity.
Qed.

(** The loop over a page never throws and touches nothing. *)
Lemma map_page_total (page : TweetPage.t) (s : TwitterPlatform.t) (w : World) :
  TwitterPlatform.map_page page s w =
    (inr (map (fun tweet => mapTwitterTweetToPost (now w) tweet (TweetPage.includes page))
              (or_nil (TweetPage.data page))), s, w).
Proof.
  unfold TwitterPlatform.map_page.
  apply (for_each_pure _
           (fun w tweet => mapTwitterTweetToPost (now w) tweet (TweetPage.includes page))).
  reflexivity.
Qed.

(** The feed, own-posts and search paths return the mapped page whenever the
    vendor answers their calls. *)
Lemma twitter_getFeed_returns fmt (vendor : Vendor) (s : TwitterPlatform.t) (w : World)
    (options : FeedOptions.t) (me : UserV2.t) (page : TweetPage.t) :
  TwitterPlatform.client s <> None ->
  vendor (log w) TwMe = inr me ->
  vendor (log w ++ [TwMe])%list
         (TwHomeTimeline (or_num (FeedOptions.limit options) 20) false) = inr page ->
  outcome (TwitterPlatform.getFeed fmt vendor options s w) =
    inr (map (fun tweet => mapTwitterTweetToPost (now w) tweet (TweetPage.includes page))
             (or_nil (TweetPage.data page))).
Proof.
  intros Hc Hme Hpage. destruct s as [cfg [c |] rw]; simpl in Hc; [ | congruence ].
  unfold outcome, TwitterPlatform.getFeed, TwitterPlatform.getMe, guarded, try_catch,
    bind, this, request; simpl.
  rewrite Hme. simpl. rewrite Hpage. rewrite map_page_total. reflexivity.
Qed.

Lemma twitter_getMyPosts_returns fmt (vendor : Vendor) (s : TwitterPlatform.t) (w : World)
    (limit : Z) (me : UserV2.t) (page : TweetPage.t) :
  TwitterPlatform.client s <> None ->
  vendor (log w) TwMe = inr me ->
  vendor (log w ++ [TwMe])%list
         (TwUserTimeline (UserV2.id me) (TwitterPlatform.clamp 5 limit)) = inr page ->
  outcome (TwitterPlatform.getMyPosts fmt vendor limit s w) =
    inr (map (fun tweet => mapTwitterTweetToPost (now w) tweet (TweetPage.includes page))
             (or_nil (TweetPage.data page))).
Proof.
  intros Hc Hme Hpage. destruct s as [cfg [c |] rw]; simpl in Hc; [ | congruence ].
  unfold outcome, TwitterPlatform.getMyPosts, TwitterPlatform.getMe, guarded, try_catch,
    bind, this, request; simpl.
  rewrite Hme. simpl. rewrite Hpage. rewrite map_page_total. reflexivity.
Qed.

Lemma twitter_search_returns fmt (vendor : Vendor) (s : TwitterPlatform.t) (w : World)
    (options : SearchOptions.t) (page : TweetPage.t) :
  TwitterPlatform.client s <> None ->
  vendor (log w)
         (TwSearch (SearchOptions.query options) (or_num (SearchOptions.limit options) 20)
                   (SearchOptions.startTime options) (SearchOptions.endTime options))
    = inr page ->
  outcome (TwitterPlatform.search fmt vendor options s w) =
    inr (map (fun tweet => mapTwitterTweetToPost (now w) tweet (TweetPage.includes page))
             (or_nil (TweetPage.data page))).
Proof.
  intros Hc Hpage. destruct s as [cfg [c |] rw]; simpl in Hc; [ | congruence ].
  unfold outcome, TwitterPlatform.search, guarded, try_catch, bind, this, request; simpl.
  rewrite Hpage. rewrite map_page_total. reflexivity.
Qed.



(* ===================================================================== *)
(** ** What the methods leave untouched *)
(* ===================================================================== *)

Section Frame.
Context {St : Type} (R : St -> St -> Prop).
Hypothesis R_refl : forall s, R s s.
Hypothesis R_trans : forall s1 s2 s3, R s1 s2 -> R s2 s3 -> R s1 s3.

Lemma preserves_ret {A} (a : A) : preserves R (ret a).
Proof. intros s w. apply R_refl. Qed.

Lemma preserves_throw {A} (e : Err.t) : preserves R (@throw St A e).
Proof. intros s w. apply R_refl. Qed.

Lemma preserves_this : preserves R (@this St).
Proof. intros s w. apply R_refl. Qed.

Lemma preserves_date_now : preserves R (@date_now St).
Proof. intros s w. apply R_refl. Qed.

Lemma preserves_request (vendor : Vendor) (c : Call) : preserves R (@request St vendor c).
Proof. intros s w. apply R_refl. Qed.

Lemma preserves_assign (f : St -> St) : (forall s, R s (f s)) -> preserves R (assign f).
Proof. intros Hf s w. apply Hf. Qed.

Lemma preserves_bind {A B} (m : M St A) (k : A -> M St B) :
  preserves R m -> (forall a, preserves R (k a)) -> preserves R (bind m k).
Proof.
  intros Hm Hk s w. unfold bind. specialize (Hm s w).
  destruct (m s w) as [[[e | a] s'] w']; simpl in *; [ exact Hm | ].
  eapply R_trans; [ exact Hm | apply Hk ].
Qed.

Lemma preserves_try_catch {A} (body : M St A) (handler : Err.t -> M St A) :
  preserves R body -> (forall e, preserves R (handler e)) ->
  preserves R (try_catch body handler).
Proof.
  intros Hm Hh s w. unfold try_catch. specialize (Hm s w).
  destruct (body s w) as [[[e | a] s'] w']; simpl in *; [ | exact Hm ].
  eapply R_trans; [ exact Hm | apply Hh ].
Qed.

Lemma preserves_guarded {A} fmt (platform : Platform) (body : M St A) :
  preserves R body -> preserves R (guarded fmt platform body).
Proof.
  intros Hm. apply preserves_try_catch; [ exact Hm | ].
  intros e. apply preserves_bind; [ apply preserves_date_now | ].
  intros n. apply preserves_throw.
Qed.

Lemma preserves_for_each {A B} (f : A -> M St B) (xs : list A) :
  (forall x, preserves R (f x)) -> preserves R (for_each f xs).
Proof.
  intros Hf. induction xs as [| x xs IH]; simpl.
  - apply preserves_ret.
  - apply preserves_bind; [ apply Hf | ].
    intros y. apply preserves_bind; [ exact IH | ].
    intros ys. apply preserves_ret.
Qed.

End Frame.

(** Reflexivity and transitivity of the relations used. *)
Ltac frame_close :=
  solve [ intros; reflexivity
        | intros;
          unfold same_twitter_config, same_instagram_config, same_linkedin_config in *;
          simpl; congruence ].

(** One step of a frame proof: split the method along its structure. *)
Ltac frame_step :=
  match goal with
  | |- preserves _ (guarded _ _ _) => apply preserves_guarded; [ frame_close | frame_close | ]
  | |- preserves _ (bind _ _) => apply preserves_bind; [ frame_close | | intro ]
  | |- preserves _ (ret _) => apply preserves_ret; frame_close
  | |- preserves _ (throw _) => apply preserves_throw; frame_close
  | |- preserves _ this => apply preserves_this; frame_close
  | |- preserves _ date_now => apply preserves_date_now; frame_close
  | |- preserves ?R (@request ?St ?v ?c) =>
      refine (@preserves_request St R _ v c); frame_close
  | |- preserves _ (assign _) => apply preserves_assign; frame_close
  | |- preserves _ (for_each _ _) =>
      apply preserves_for_each; [ frame_close | frame_close | intro; cbv beta ]
  | |- preserves _ (match ?x with _ => _ end) => destruct x
  | |- preserves _ (if ?b then _ else _) => destruct b
  end.

Ltac frame := repeat frame_step.

Lemma preserves_eq_any {St A} (R : St -> St -> Prop) (m : M St A) :
  (forall s, R s s) -> preserves eq m -> preserves R m.
Proof. intros Hr Hm s w. rewrite <- (Hm s w). apply Hr. Qed.

(** Every method but [authenticate] leaves all fields as they are. *)
Lemma instagram_getMe_unchanged fmt vendor : preserves eq (InstagramPlatform.getMe fmt vendor).
Proof. unfold InstagramPlatform.getMe. frame. Qed.

Lemma instagram_getFeed_unchanged fmt vendor o :
  preserves eq (InstagramPlatform.getFeed fmt vendor o).
Proof. unfold InstagramPlatform.getFeed. frame. apply instagram_getMe_unchanged. Qed.

Lemma instagram_post_unchanged fmt vendor o :
  preserves eq (InstagramPlatform.post fmt vendor o).
Proof. unfold InstagramPlatform.post. frame. apply instagram_getMe_unchanged. Qed.

Lemma instagram_engage_unchanged fmt vendor o :
  preserves eq (InstagramPlatform.engage fmt vendor o).
Proof. unfold InstagramPlatform.engage. frame. Qed.

Lemma instagram_search_unchanged fmt o : preserves eq (InstagramPlatform.search fmt o).
Proof. unfold InstagramPlatform.search. frame. Qed.

Lemma linkedin_getMe_unchanged fmt vendor : preserves eq (LinkedInPlatform.getMe fmt vendor).
Proof. unfold LinkedInPlatform.getMe. frame. Qed.

Lemma linkedin_getFeed_unchanged fmt vendor o :
  preserves eq (LinkedInPlatform.getFeed fmt vendor o).
Proof. unfold LinkedInPlatform.getFeed. frame. apply linkedin_getMe_unchanged. Qed.

Lemma linkedin_post_unchanged fmt vendor o :
  preserves eq (LinkedInPlatform.post fmt vendor o).
Proof. unfold LinkedInPlatform.post. frame; apply linkedin_getMe_unchanged. Qed.

Lemma linkedin_engage_unchanged fmt vendor o :
  preserves eq (LinkedInPlatform.engage fmt vendor o).
Proof. unfold LinkedInPlatform.engage. frame. Qed.

Lemma linkedin_search_unchanged fmt o : preserves eq (LinkedInPlatform.search fmt o).
Proof. unfold LinkedInPlatform.search. frame. Qed.

Lemma twitter_getMe_unchanged fmt vendor : preserves eq (TwitterPlatform.getMe fmt vendor).
Proof. unfold TwitterPlatform.getMe. frame. Qed.

Lemma twitter_map_page_unchanged page : preserves eq (TwitterPlatform.map_page page).
Proof. intros s w. rewrite map_page_total. reflexivity. Qed.

Lemma twitter_getFeed_unchanged fmt vendor o :
  preserves eq (TwitterPlatform.getFeed fmt vendor o).
Proof.
  unfold TwitterPlatform.getFeed. frame;
    first [ apply twitter_getMe_unchanged | apply twitter_map_page_unchanged ].
Qed.

Lemma twitter_post_unchanged fmt vendor o :
  preserves eq (TwitterPlatform.post fmt vendor o).
Proof. unfold TwitterPlatform.post. frame. Qed.

Lemma twitter_engage_unchanged fmt vendor o :
  preserves eq (TwitterPlatform.engage fmt vendor o).
Proof. unfold TwitterPlatform.engage. frame; apply twitter_getMe_unchanged. Qed.

Lemma twitter_search_unchanged fmt vendor o :
  preserves eq (TwitterPlatform.search fmt vendor o).
Proof. unfold TwitterPlatform.search. frame; apply twitter_map_page_unchanged. Qed.

(** [authenticate] assigns the client fields and never the config. *)
Lemma instagram_authenticate_keeps_config fmt vendor :
  preserves same_instagram_config (InstagramPlatform.authenticate fmt vendor).
Proof.
  unfold InstagramPlatform.authenticate. frame.
  apply preserves_eq_any; [ frame_close | apply instagram_getMe_unchanged ].
Qed.

Lemma linkedin_authenticate_keeps_config fmt vendor :
  preserves same_linkedin_config (LinkedInPlatform.authenticate fmt vendor).
Proof.
  unfold LinkedInPlatform.authenticate. frame.
  apply preserves_eq_any; [ frame_close | apply linkedin_getMe_unchanged ].
Qed.

Lemma twitter_authenticate_keeps_config fmt vendor :
  preserves same_twitter_config (TwitterPlatform.authenticate fmt vendor).
Proof.
  unfold TwitterPlatform.authenticate. frame;
    (apply preserves_eq_any; [ frame_close | apply twitter_getMe_unchanged ]).
Qed.

Lemma fields_lift {St A} (wrap : St -> SocialPlatform) (m : M St A) (s : St) (w : World) :
  fields (lift wrap m s w) = wrap (fields (m s w)).
Proof. unfold lift. destruct (m s w) as [[r s'] w']. reflexivity. Qed.

Lemma outcome_lift {St A} (wrap : St -> SocialPlatform) (m : M St A) (s : St) (w : World) :
  outcome (lift wrap m s w) = outcome (m s w).
Proof. unfold lift. destruct (m s w) as [[r s'] w']. reflexivity. Qed.

Lemma world_lift {St A} (wrap : St -> SocialPlatform) (m : M St A) (s : St) (w : World) :
  world (lift wrap m s w) = world (m s w).
Proof. unfold lift. destruct (m s w) as [[r s'] w']. reflexivity. Qed.

Lemma fields_as_value {A} (val : A -> Value) (r : (Err.t + A) * SocialPlatform * World) :
  fields (as_value val r) = fields r.
Proof. destruct r as [[[e | a] s] w]; reflexivity. Qed.

(** What [call] does to the instance, operation by operation. *)
Lemma call_keeps_fields fmt vendor (a : SocialPlatform) (op : Operation) (w : World) :
  op <> Authenticate -> fields (call fmt vendor a op w) = a.
Proof.
  intros Hop.
  destruct op; try (exfalso; apply Hop; reflexivity);
    unfold call; rewrite fields_as_value;
    destruct a as [s | s | s]; simpl; rewrite fields_lift; f_equal; symmetry.
  - apply twitter_getMe_unchanged.
  - apply instagram_getMe_unchanged.
  - apply linkedin_getMe_unchanged.
  - apply twitter_getFeed_unchanged.
  - apply instagram_getFeed_unchanged.
  - apply linkedin_getFeed_unchanged.
  - apply twitter_post_unchanged.
  - apply instagram_post_unchanged.
  - apply linkedin_post_unchanged.
  - apply twitter_engage_unchanged.
  - apply instagram_engage_unchanged.
  - apply linkedin_engage_unchanged.
  - apply twitter_search_unchanged.
  - apply instagram_search_unchanged.
  - apply linkedin_search_unchanged.
Qed.

Lemma authenticate_keeps_config fmt vendor (a : SocialPlatform) (w : World) :
  config_of (fields (authenticate fmt vendor a w)) = config_of a /\
  getPlatform (fields (authenticate fmt vendor a w)) = getPlatform a.
Proof.
  destruct a as [s | s | s]; simpl; rewrite fields_lift; simpl; split; try reflexivity.
  - apply twitter_authenticate_keeps_config.
  - apply instagram_authenticate_keeps_config.
  - apply linkedin_authenticate_keeps_config.
Qed.

(* ===================================================================== *)
(** ** authenticate *)
(* ===================================================================== *)

(** [authenticate] is its credential check, the assignment of the client,
    and the identity probe. *)
Lemma instagram_authenticate_run fmt vendor (s : InstagramPlatform.t) (w : World) :
  InstagramPlatform.authenticate fmt vendor s w =
    let c := InstagramPlatform.config s in
    if negb (nonempty (PlatformConfig.accessToken c)) || negb (truthy (PlatformConfig.userId c))
    then (inl (InstagramPlatform.error "Missing Instagram access token or user ID"), s, w)
    else
      match InstagramPlatform.getMe fmt vendor
              (InstagramPlatform.set_client
                 (InstagramPlatform.mkClient InstagramPlatform.baseUrl
                    (PlatformConfig.accessToken c)) s) w with
      | (inr _, s', w') => (inr tt, s', w')
      | (inl e, s', w') => (inl (handleError fmt INSTAGRAM (now w') e), s', w')
      end.
Proof.
  unfold InstagramPlatform.authenticate, guarded, try_catch, bind, this, assign. simpl.
  destruct (negb _ || negb _)%bool; simpl; [ reflexivity | ].
  destruct (InstagramPlatform.getMe _ _ _ _) as [[[e | u] s'] w']; reflexivity.
Qed.

Lemma linkedin_authenticate_run fmt vendor (s : LinkedInPlatform.t) (w : World) :
  LinkedInPlatform.authenticate fmt vendor s w =
    let c := LinkedInPlatform.config s in
    if negb (nonempty (PlatformConfig.accessToken c))
    then (inl (LinkedInPlatform.error "Missing LinkedIn access token"), s, w)
    else
      match LinkedInPlatform.getMe fmt vendor
              (LinkedInPlatform.set_client
                 (LinkedInPlatform.mkClient LinkedInPlatform.baseUrl
                    ("Bearer " ++ PlatformConfig.accessToken c)) s) w with
      | (inr me, s', w') => (inr tt, LinkedInPlatform.set_profileId (User.id me) s', w')
      | (inl e, s', w') => (inl (handleError fmt LINKEDIN (now w') e), s', w')
      end.
Proof.
  unfold LinkedInPlatform.authenticate, guarded, try_catch, bind, this, assign. simpl.
  destruct (negb _); simpl; [ reflexivity | ].
  destruct (LinkedInPlatform.getMe _ _ _ _) as [[[e | u] s'] w']; reflexivity.
Qed.

Lemma twitter_authenticate_run fmt vendor (s : TwitterPlatform.t) (w : World) :
  TwitterPlatform.authenticate fmt vendor s w =
    match twitter_client_for (TwitterPlatform.config s) with
    | None => (inl (TwitterPlatform.error "Missing Twitter API credentials"), s, w)
    | Some c =>
        match TwitterPlatform.getMe fmt vendor
                (match c with
                 | TwitterPlatform.UserContext _ _ _ _ => TwitterPlatform.set_both c s
                 | TwitterPlatform.AppOnly _ => TwitterPlatform.set_client c s
                 end) w with
        | (inr _, s', w') => (inr tt, s', w')
        | (inl e, s', w') => (inl (handleError fmt TWITTER (now w') e), s', w')
        end
    end.
Proof.
  unfold TwitterPlatform.authenticate, twitter_client_for, guarded, try_catch, bind, this,
    assign. simpl.
  destruct (_ && _ && _ && _)%bool; simpl.
  - destruct (TwitterPlatform.getMe _ _ _ _) as [[[e | u] s'] w']; reflexivity.
  - destruct (truthy (PlatformConfig.bearerToken _)); simpl; [ | reflexivity ].
    destruct (TwitterPlatform.getMe _ _ _ _) as [[[e | u] s'] w']; reflexivity.
Qed.

(** A method that leaves the fields alone, as a triple. *)
Lemma unchanged_run {St A} (m : M St A) (s : St) (w : World) :
  preserves eq m -> m s w = (outcome (m s w), s, world (m s w)).
Proof.
  intros H. specialize (H s w). unfold fields, outcome, world in *.
  destruct (m s w) as [[r s'] w']. simpl in *. subst. reflexivity.
Qed.

(** After a successful [authenticate] the client is the one built from the
    config. *)
Lemma authenticate_builds_client fmt vendor (a : SocialPlatform) (w : World) :
  outcome (authenticate fmt vendor a w) = inr tt ->
  client_from_config (fields (authenticate fmt vendor a w)).
Proof.
  destruct a as [s | s | s]; simpl; rewrite outcome_lift, fields_lift.
  - rewrite twitter_authenticate_run.
    destruct (twitter_client_for (TwitterPlatform.config s)) as [c |] eqn:E;
      [ | discriminate ].
    rewrite (unchanged_run _ _ _ (twitter_getMe_unchanged fmt vendor)).
    destruct (outcome (TwitterPlatform.getMe _ _ _ _)) as [e | u]; [ discriminate | ].
    intros _.
    destruct s as [cfg cl rw]; destruct c;
      unfold client_from_config, fields, TwitterPlatform.set_both, TwitterPlatform.set_client;
      cbn [fst snd TwitterPlatform.client TwitterPlatform.config] in *;
      (split; [ discriminate | symmetry; exact E ]).
  - rewrite instagram_authenticate_run. cbv zeta.
    destruct (negb _ || negb _)%bool; [ discriminate | ].
    rewrite (unchanged_run _ _ _ (instagram_getMe_unchanged fmt vendor)).
    destruct (outcome (InstagramPlatform.getMe _ _ _ _)) as [e | u]; [ discriminate | ].
    intros _. reflexivity.
  - rewrite linkedin_authenticate_run. cbv zeta.
    destruct (negb _); [ discriminate | ].
    rewrite (unchanged_run _ _ _ (linkedin_getMe_unchanged fmt vendor)).
    destruct (outcome (LinkedInPlatform.getMe _ _ _ _)) as [e | u]; [ discriminate | ].
    intros _. reflexivity.
Qed.

(** C9.  Whatever operation is called on whatever adapter, and whether it
    returns or throws, the config stored at construction is the same
    afterwards, field for field, and so is the platform tag; every operation
    but authenticate leaves all fields of the instance as they were; and a
    successful authenticate has put in place a client built anew from the
    stored config. *)
Theorem config_is_never_mutated fmt (vendor : Vendor) (a : SocialPlatform)
    (op : Operation) (w : World) :
  let after := fields (call fmt vendor a op w) in
  config_of after = config_of a /\
  getPlatform after = getPlatform a /\
  match op with
  | Authenticate =>
      match outcome (call fmt vendor a op w) with
      | inr _ => client_from_config after
      | inl _ => True
      end
  | _ => after = a
  end.
Proof.
  cbv zeta.
  destruct op.
  1: { unfold call. rewrite fields_as_value.
       destruct (authenticate_keeps_config fmt vendor a w) as [Hc Hp].
       repeat split; try assumption.
       pose proof (authenticate_builds_client fmt vendor a w) as Hb.
       destruct (authenticate fmt vendor a w) as [[[e | []] a'] w']; simpl in *;
         [ exact I | apply Hb; reflexivity ]. }
  all: rewrite call_keeps_fields by discriminate; repeat split.
Qed.

(** What a successful [authenticate] leaves in the fields. *)
Lemma instagram_authenticate_ok fmt vendor (s : InstagramPlatform.t) (w : World) :
  outcome (InstagramPlatform.authenticate fmt vendor s w) = inr tt ->
  (negb (nonempty (PlatformConfig.accessToken (InstagramPlatform.config s)))
   || negb (truthy (PlatformConfig.userId (InstagramPlatform.config s))))%bool = false /\
  fields (InstagramPlatform.authenticate fmt vendor s w) =
    InstagramPlatform.set_client
      (InstagramPlatform.mkClient InstagramPlatform.baseUrl
         (PlatformConfig.accessToken (InstagramPlatform.config s))) s.
Proof.
  rewrite instagram_authenticate_run. cbv zeta.
  destruct (negb _ || negb _)%bool; [ discriminate | ].
  rewrite (unchanged_run _ _ _ (instagram_getMe_unchanged fmt vendor)).
  destruct (outcome (InstagramPlatform.getMe _ _ _ w)); [ discriminate | ].
  intros _. split; reflexivity.
Qed.

Lemma linkedin_authenticate_ok fmt vendor (s : LinkedInPlatform.t) (w : World) :
  outcome (LinkedInPlatform.authenticate fmt vendor s w) = inr tt ->
  negb (nonempty (PlatformConfig.accessToken (LinkedInPlatform.config s))) = false /\
  exists id,
    fields (LinkedInPlatform.authenticate fmt vendor s w) =
      LinkedInPlatform.set_profileId id
        (LinkedInPlatform.set_client
           (LinkedInPlatform.mkClient LinkedInPlatform.baseUrl
              ("Bearer " ++ PlatformConfig.accessToken (LinkedInPlatform.config s))) s).
Proof.
  rewrite linkedin_authenticate_run. cbv zeta.
  destruct (negb _); [ discriminate | ].
  rewrite (unchanged_run _ _ _ (linkedin_getMe_unchanged fmt vendor)).
  destruct (outcome (LinkedInPlatform.getMe _ _ _ w)) as [e | me]; [ discriminate | ].
  intros _. split; [ reflexivity | ]. exists (User.id me). reflexivity.
Qed.

Lemma twitter_authenticate_ok fmt vendor (s : TwitterPlatform.t) (w : World) :
  outcome (TwitterPlatform.authenticate fmt vendor s w) = inr tt ->
  exists c,
    twitter_client_for (TwitterPlatform.config s) = Some c /\
    fields (TwitterPlatform.authenticate fmt vendor s w) =
      match c with
      | TwitterPlatform.UserContext _ _ _ _ => TwitterPlatform.set_both c s
      | TwitterPlatform.AppOnly _ => TwitterPlatform.set_client c s
      end.
Proof.
  rewrite twitter_authenticate_run.
  destruct (twitter_client_for (TwitterPlatform.config s)) as [c |]; [ | discriminate ].
  rewrite (unchanged_run _ _ _ (twitter_getMe_unchanged fmt vendor)).
  destruct (outcome (TwitterPlatform.getMe _ _ _ w)); [ discriminate | ].
  intros _. exists c. split; reflexivity.
Qed.

(** The second call, class by class. *)
Lemma instagram_authenticate_again fmt vendor (s : InstagramPlatform.t) (w w1 : World)
    (u : User.t) :
  outcome (InstagramPlatform.authenticate fmt vendor s w) = inr tt ->
  let s1 := fields (InstagramPlatform.authenticate fmt vendor s w) in
  outcome (InstagramPlatform.getMe fmt vendor s1 w1) = inr u ->
  outcome (InstagramPlatform.authenticate fmt vendor s1 w1) = inr tt /\
  fields (InstagramPlatform.authenticate fmt vendor s1 w1) = s1.
Proof.
  intros H. destruct (instagram_authenticate_ok _ _ _ _ H) as [Hc ->]. cbv zeta.
  intros H2. rewrite instagram_authenticate_run. cbv zeta.
  destruct s as [cfg cl]. unfold InstagramPlatform.set_client in *.
  cbn [InstagramPlatform.config] in *. rewrite Hc. rewrite (unchanged_run _ _ _ (instagram_getMe_unchanged fmt vendor)), H2.
  split; reflexivity.
Qed.

Lemma linkedin_authenticate_again fmt vendor (s : LinkedInPlatform.t) (w w1 : World)
    (u : User.t) :
  outcome (LinkedInPlatform.authenticate fmt vendor s w) = inr tt ->
  let s1 := fields (LinkedInPlatform.authenticate fmt vendor s w) in
  outcome (LinkedInPlatform.getMe fmt vendor s1 w1) = inr u ->
  LinkedInPlatform.profileId s1 = Some (User.id u) ->
  outcome (LinkedInPlatform.authenticate fmt vendor s1 w1) = inr tt /\
  fields (LinkedInPlatform.authenticate fmt vendor s1 w1) = s1.
Proof.
  intros H. destruct (linkedin_authenticate_ok _ _ _ _ H) as [Hc [id ->]]. cbv zeta.
  intros H2 Hid. rewrite linkedin_authenticate_run. cbv zeta.
  destruct s as [cfg cl pid].
  unfold LinkedInPlatform.set_client, LinkedInPlatform.set_profileId in *.
  cbn [LinkedInPlatform.config LinkedInPlatform.client LinkedInPlatform.profileId] in *.
  rewrite Hc. injection Hid as ->.
  rewrite (unchanged_run _ _ _ (linkedin_getMe_unchanged fmt vendor)), H2.
  split; reflexivity.
Qed.

Lemma twitter_authenticate_again fmt vendor (s : TwitterPlatform.t) (w w1 : World)
    (u : User.t) :
  outcome (TwitterPlatform.authenticate fmt vendor s w) = inr tt ->
  let s1 := fields (TwitterPlatform.authenticate fmt vendor s w) in
  outcome (TwitterPlatform.getMe fmt vendor s1 w1) = inr u ->
  outcome (TwitterPlatform.authenticate fmt vendor s1 w1) = inr tt /\
  fields (TwitterPlatform.authenticate fmt vendor s1 w1) = s1.
Proof.
  intros H. destruct (twitter_authenticate_ok _ _ _ _ H) as [c [Hc ->]]. cbv zeta.
  intros H2. rewrite twitter_authenticate_run.
  destruct s as [cfg cl rw], c;
    unfold TwitterPlatform.set_client, TwitterPlatform.set_both in *;
    cbn [TwitterPlatform.config TwitterPlatform.client TwitterPlatform.readWriteClient] in *;
    rewrite Hc;
    cbn [TwitterPlatform.config TwitterPlatform.client TwitterPlatform.readWriteClient];
    rewrite (unchanged_run _ _ _ (twitter_getMe_unchanged fmt vendor)), H2;
    split; reflexivity.
Qed.

(** C8.  When authenticate has succeeded and the vendor answers the identity
    probe of a second call, for the same account, the second authenticate
    succeeds as well and leaves every field of the instance (config, client,
    and on LinkedIn the profile id) exactly as the first call left it. *)
Theorem authenticate_twice_changes_nothing fmt (vendor : Vendor) (a : SocialPlatform)
    (w : World) (u : User.t) :
  outcome (authenticate fmt vendor a w) = inr tt ->
  let a1 := fields (authenticate fmt vendor a w) in
  let w1 := world (authenticate fmt vendor a w) in
  outcome (getMe fmt vendor a1 w1) = inr u ->
  (forall s, a1 = LinkedIn s -> LinkedInPlatform.profileId s = Some (User.id u)) ->
  outcome (authenticate fmt vendor a1 w1) = inr tt /\
  fields (authenticate fmt vendor a1 w1) = a1 /\
  config_of a1 = config_of a.
Proof.
  cbv zeta. intros H1 H2 Hid.
  assert (Hcfg := proj1 (authenticate_keeps_config fmt vendor a w)).
  revert H1 H2 Hid Hcfg. generalize (world (authenticate fmt vendor a w)). intros w1.
  destruct a as [s | s | s]; cbn [authenticate]; rewrite !fields_lift;
    cbn [authenticate getMe]; rewrite !outcome_lift, !fields_lift;
    intros H1 H2 Hid Hcfg.
  - destruct (twitter_authenticate_again _ _ _ _ w1 _ H1 H2) as [Ho Hf].
    rewrite Ho, Hf. auto.
  - destruct (instagram_authenticate_again _ _ _ _ w1 _ H1 H2) as [Ho Hf].
    rewrite Ho, Hf. auto.
  - destruct (linkedin_authenticate_again _ _ _ _ w1 _ H1 H2 (Hid _ eq_refl)) as [Ho Hf].
    rewrite Ho, Hf. auto.
Qed.

Lemma authenticate_twice_changes_nothing_witness :
  let first := authenticate clock_text twitter_refuses_linkedin_accepts
                 (construct LINKEDIN linkedin_config) start in
  outcome (authenticate clock_text twitter_refuses_linkedin_accepts
             (fields first) (world first)) = inr tt /\
  fields (authenticate clock_text twitter_refuses_linkedin_accepts
            (fields first) (world first)) = fields first /\
  config_of (fields first) = config_of (construct LINKEDIN linkedin_config).
Proof.
  apply (authenticate_twice_changes_nothing clock_text twitter_refuses_linkedin_accepts
           (construct LINKEDIN linkedin_config) start
           (mapLinkedInProfileToUser linkedin_me)).
  - reflexivity.
  - reflexivity.
  - intros s Hs. vm_compute in Hs. injection Hs as <-. reflexivity.
Defined.

(* ===================================================================== *)
(** ** Cross-posting *)
(* ===================================================================== *)

(** One record per instance, in the order of the instances, whichever posts
    fail. *)
Lemma post_each_platforms fmt (vendor : Vendor) (platforms : list SocialPlatform)
    (o : PostOptions.t) (w : World) :
  map PostResult.platform (fst (post_each fmt vendor platforms o w)) =
  map getPlatform platforms.
Proof.
  revert w. induction platforms as [| a rest IH]; intros w; [ reflexivity | ].
  simpl. destruct (post fmt vendor a o w) as [[[e | p] a'] w'];
    specialize (IH w'); destruct (post_each fmt vendor rest o w') as [results w''];
    simpl in *; rewrite IH; reflexivity.
Qed.

(** The record of the first instance depends on its own post only, and the
    loop goes on with the others in the world that post left. *)
Lemma post_each_cons fmt (vendor : Vendor) (a : SocialPlatform)
    (rest : list SocialPlatform) (o : PostOptions.t) (w : World) :
  fst (post_each fmt vendor (a :: rest) o w) =
    match outcome (post fmt vendor a o w) with
    | inr p => PostResult.mk (getPlatform a) true None (Some (Post.id p))
    | inl e => PostResult.mk (getPlatform a) false (Err.message e) None
    end :: fst (post_each fmt vendor rest o (world (post fmt vendor a o w))).
Proof.
  simpl. unfold outcome, world.
  destruct (post fmt vendor a o w) as [[[e | p] a'] w']; simpl;
    destruct (post_each fmt vendor rest o w') as [results w'']; reflexivity.
Qed.





(* ===================================================================== *)
(** ** Posting and reading back *)
(* ===================================================================== *)

(** The upload loop of [TwitterPlatform.post] logs one call per media URL. *)
Lemma upload_loop_log (vendor : Vendor) (urls : list string) (s : TwitterPlatform.t)
    (w : World) (ids : list string) :
  outcome (for_each (fun u => request vendor (TwUploadMedia u)) urls s w) = inr ids ->
  for_each (fun u => request vendor (TwUploadMedia u)) urls s w =
    (inr ids, s, mkWorld (log w ++ map TwUploadMedia urls) (now w)).
Proof.
  revert w ids. induction urls as [| u urls IH]; intros w ids H.
  - unfold outcome in H. simpl in H. injection H as <-. simpl.
    rewrite app_nil_r. destruct w; reflexivity.
  - simpl in *. unfold bind, outcome in *.
    change (@request TwitterPlatform.t vendor (TwUploadMedia u) s w)
      with (vendor (log w) (TwUploadMedia u), s,
            mkWorld (log w ++ [TwUploadMedia u]) (now w)) in *.
    destruct (vendor (log w) (TwUploadMedia u)) as [e | id]; [ discriminate | ].
    specialize (IH (mkWorld (log w ++ [TwUploadMedia u]) (now w))).
    destruct (for_each _ urls s _) as [[[e | rest] s'] w'] eqn:E; [ discriminate | ].
    simpl in H. injection H as <-.
    specialize (IH rest eq_refl). injection IH as -> ->.
    simpl. rewrite <- app_assoc. reflexivity.
Qed.

(** The outcome is an error where a return value is assumed. *)
Ltac threw := let H := fresh in intros H; discriminate H.

(** What a successful [post] implies, class by class. *)
Lemma twitter_post_reported fmt (vendor : Vendor) (s : TwitterPlatform.t)
    (o : PostOptions.t) (w : World) (p : Post.t) :
  outcome (TwitterPlatform.post fmt vendor o s w) = inr p ->
  reported_by vendor (Twitter s) o w p.
Proof.
  destruct s as [cfg c [rw |]]; [ | threw ].
  unfold TwitterPlatform.post, guarded, try_catch, rethrow, bind, this, throw, date_now,
    outcome. simpl.
  destruct (truthy (PostOptions.text o)); [ | threw ]. simpl.
  unfold reported_by, tweet_log.
  destruct (PostOptions.mediaUrls o) as [[| u urls] |]; simpl.
  - destruct (vendor (log w) (TwTweet _ None)) as [e | id] eqn:Ht; simpl; [ threw | ].
    simpl.
    destruct (vendor _ (TwSingleTweet id)) as [e | lookup] eqn:Hl; simpl; [ threw | ].
    simpl. intros H. injection H as <-. exists None, id, lookup. auto.
  - unfold bind. simpl.
    destruct (vendor (log w) (TwUploadMedia u)) as [e | id0] eqn:Hu; simpl; [ threw | ].
    simpl.
    pose proof (upload_loop_log vendor urls (TwitterPlatform.mk cfg c (Some rw))
                  (mkWorld (log w ++ [TwUploadMedia u]) (now w))) as Hloop.
    unfold outcome in Hloop.
    destruct (for_each _ urls _ _) as [[[e | ids] s'] w'] eqn:E; simpl; [ threw | ].
    specialize (Hloop ids eq_refl). injection Hloop as -> ->. simpl.
    rewrite <- app_assoc. simpl.
    destruct (vendor _ (TwTweet _ _)) as [e | id] eqn:Ht; simpl; [ threw | ]. simpl.
    destruct (vendor _ (TwSingleTweet id)) as [e | lookup] eqn:Hl; simpl; [ threw | ].
    simpl. intros H. injection H as <-. exists (Some (id0 :: ids)), id, lookup. auto.
  - destruct (vendor (log w) (TwTweet _ None)) as [e | id] eqn:Ht; simpl; [ threw | ].
    simpl.
    destruct (vendor _ (TwSingleTweet id)) as [e | lookup] eqn:Hl; simpl; [ threw | ].
    simpl. intros H. injection H as <-. exists None, id, lookup. auto.
Qed.

Lemma instagram_post_reported fmt (vendor : Vendor) (s : InstagramPlatform.t)
    (o : PostOptions.t) (w : World) (p : Post.t) :
  outcome (InstagramPlatform.post fmt vendor o s w) = inr p ->
  reported_by vendor (Instagram s) o w p /\ Post.platform p = INSTAGRAM.
Proof.
  destruct s as [cfg [c |]]; [ | threw ].
  unfold InstagramPlatform.post, InstagramPlatform.getMe, guarded, try_catch, rethrow, bind,
    this, throw, date_now, outcome. simpl.
  destruct (negb _ && negb _)%bool; [ threw | ].
  destruct (negb (truthy _)); [ threw | ]. simpl.
  destruct (vendor (log w) (IgCreateContainer _ _ _)) as [e | cid] eqn:Hc;
    simpl; [ threw | ]. simpl.
  destruct (vendor _ (IgPublish _ cid)) as [e | mid] eqn:Hp; simpl; [ threw | ]. simpl.
  destruct (vendor _ (IgGetMedia mid)) as [e | media] eqn:Hm; simpl; [ threw | ]. simpl.
  destruct (vendor _ (IgGetUser _)) as [e | me]; simpl; [ threw | ]. simpl.
  intros H. injection H as <-. split; [ | reflexivity ].
  rewrite <- app_assoc in Hm. simpl in Hm.
  eexists _, cid, mid, media. cbv zeta. repeat split; eassumption || reflexivity.
Qed.

Lemma linkedin_post_reported fmt (vendor : Vendor) (s : LinkedInPlatform.t)
    (o : PostOptions.t) (w : World) (p : Post.t) :
  outcome (LinkedInPlatform.post fmt vendor o s w) = inr p ->
  reported_by vendor (LinkedIn s) o w p /\ Post.platform p = LINKEDIN.
Proof.
  destruct s as [cfg [c |] [[| ch pid] |]]; try threw.
  unfold LinkedInPlatform.post, LinkedInPlatform.getMe, guarded, try_catch, rethrow, bind,
    this, throw, date_now, outcome. simpl.
  destruct (negb _ && negb _)%bool; [ threw | ]. simpl.
  destruct (vendor (log w) (LiCreateUgcPost _ _ _)) as [e | id] eqn:Hc;
    simpl; [ threw | ]. simpl.
  destruct (vendor _ LiMe) as [e | me]; simpl; [ threw | ]. simpl.
  intros H. injection H as <-. split; [ | reflexivity ].
  eexists (String ch pid), _. repeat split. exact Hc.
Qed.

(** What a successful [getFeed] returns, class by class. *)
Lemma twitter_getFeed_posts fmt (vendor : Vendor) (s : TwitterPlatform.t)
    (options : FeedOptions.t) (w : World) (posts : list Post.t) :
  outcome (TwitterPlatform.getFeed fmt vendor options s w) = inr posts ->
  Forall (fun q => Post.platform q = TWITTER) posts /\
  map Post.content posts = feed_texts vendor (Twitter s) options w.
Proof.
  destruct s as [cfg [c |] rw]; [ | threw ].
  unfold TwitterPlatform.getFeed, TwitterPlatform.getMe, guarded, try_catch, rethrow, bind,
    this, throw, date_now, outcome, feed_texts. simpl.
  destruct (vendor (log w) TwMe) as [e | me]; simpl; [ threw | ]. simpl.
  destruct (vendor _ (TwHomeTimeline _ _)) as [e | page]; simpl; [ threw | ]. simpl.
  rewrite map_page_total. simpl. intros H. injection H as <-.
  split.
  - apply Forall_forall. intros q Hq. apply in_map_iff in Hq.
    destruct Hq as [tweet [<- _]]. reflexivity.
  - rewrite map_map. reflexivity.
Qed.

Lemma instagram_getFeed_posts fmt (vendor : Vendor) (s : InstagramPlatform.t)
    (options : FeedOptions.t) (w : World) (posts : list Post.t) :
  outcome (InstagramPlatform.getFeed fmt vendor options s w) = inr posts ->
  Forall (fun q => Post.platform q = INSTAGRAM) posts /\
  map Post.content posts = feed_texts vendor (Instagram s) options w.
Proof.
  destruct s as [cfg [c |]]; [ | threw ].
  unfold InstagramPlatform.getFeed, InstagramPlatform.getMe, guarded, try_catch, rethrow,
    bind, this, throw, date_now, outcome, feed_texts. simpl.
  destruct (vendor (log w) (IgListMedia _ _)) as [e | response]; simpl; [ threw | ]. simpl.
  destruct (vendor _ (IgGetUser _)) as [e | me]; simpl; [ threw | ]. simpl.
  intros H. injection H as <-.
  split.
  - apply Forall_forall. intros q Hq. apply in_map_iff in Hq.
    destruct Hq as [media [<- _]]. reflexivity.
  - rewrite map_map. reflexivity.
Qed.

Lemma linkedin_getFeed_posts fmt (vendor : Vendor) (s : LinkedInPlatform.t)
    (options : FeedOptions.t) (w : World) (posts : list Post.t) :
  outcome (LinkedInPlatform.getFeed fmt vendor options s w) = inr posts ->
  Forall (fun q => Post.platform q = LINKEDIN) posts /\
  map Post.content posts = feed_texts vendor (LinkedIn s) options w.
Proof.
  destruct s as [cfg [c |] [[| ch pid] |]]; try threw.
  unfold LinkedInPlatform.getFeed, LinkedInPlatform.getMe, guarded, try_catch, rethrow, bind,
    this, throw, date_now, outcome, feed_texts. simpl.
  destruct (vendor (log w) (LiListUgcPosts _ _)) as [e | response]; simpl; [ threw | ].
  simpl.
  destruct (vendor _ LiMe) as [e | me]; simpl; [ threw | ]. simpl.
  intros H. injection H as <-.
  split.
  - apply Forall_forall. intros q Hq. apply in_map_iff in Hq.
    destruct Hq as [item [<- _]]. reflexivity.
  - rewrite map_map. reflexivity.
Qed.

(** C5 (amended).  Whenever [post] returns a Post and the feed is then read
    on the same instance: the Post carries the platform tag of the adapter,
    and it is what the vendor reported for the text the adapter sent (on
    LinkedIn its content is the posted text itself); every Post of the feed
    carries the platform tag of the adapter, and the contents of the feed
    are, item by item, the texts with which the vendor answered the feed
    request, so that each text the vendor returns, the posted one included
    when the vendor returns it, is the content of a Post of the feed. *)
Theorem post_then_feed fmt (vendor : Vendor) (a : SocialPlatform) (o : PostOptions.t)
    (w : World) (options : FeedOptions.t) (p : Post.t) (posts : list Post.t) :
  outcome (post fmt vendor a o w) = inr p ->
  outcome (getFeed fmt vendor (fields (post fmt vendor a o w)) options
                   (world (post fmt vendor a o w))) = inr posts ->
  Post.platform p = getPlatform a /\
  reported_by vendor a o w p /\
  Forall (fun q => Post.platform q = getPlatform a) posts /\
  map Post.content posts = feed_texts vendor a options (world (post fmt vendor a o w)) /\
  (forall t, In t (feed_texts vendor a options (world (post fmt vendor a o w))) ->
             exists q, In q posts /\ Post.content q = t /\ Post.platform q = getPlatform a).
Proof.
  intros Hp Hf.
  assert (Hfeed : Forall (fun q => Post.platform q = getPlatform a) posts /\
                  map Post.content posts =
                  feed_texts vendor a options (world (post fmt vendor a o w))).
  { destruct a as [s | s | s]; cbn [post getFeed getPlatform] in *;
      rewrite fields_lift, world_lift in Hf; cbn [getFeed] in Hf;
      rewrite outcome_lift in Hf; rewrite world_lift.
    - rewrite <- (twitter_post_unchanged fmt vendor o s w) in Hf.
      exact (twitter_getFeed_posts _ _ _ _ _ _ Hf).
    - rewrite <- (instagram_post_unchanged fmt vendor o s w) in Hf.
      exact (instagram_getFeed_posts _ _ _ _ _ _ Hf).
    - rewrite <- (linkedin_post_unchanged fmt vendor o s w) in Hf.
      exact (linkedin_getFeed_posts _ _ _ _ _ _ Hf). }
  destruct Hfeed as [Htags Htexts].
  assert (Hpost : Post.platform p = getPlatform a /\ reported_by vendor a o w p).
  { destruct a as [s | s | s]; cbn [post getPlatform] in *; rewrite outcome_lift in Hp.
    - pose proof (twitter_post_reported _ _ _ _ _ _ Hp) as Hr. split; [ | exact Hr ].
      destruct Hr as [media [id [lookup [_ [_ ->]]]]]. reflexivity.
    - destruct (instagram_post_reported _ _ _ _ _ _ Hp). auto.
    - destruct (linkedin_post_reported _ _ _ _ _ _ Hp). auto. }
  destruct Hpost as [Htag Hrep].
  repeat split; try assumption.
  intros t Ht. rewrite <- Htexts in Ht. apply in_map_iff in Ht.
  destruct Ht as [q [Hq Hin]]. exists q. repeat split; try assumption.
  rewrite Forall_forall in Htags. apply Htags. exact Hin.
Qed.

Lemma post_then_feed_witness :
  let posted := post clock_text twitter_echoes_hello (Twitter twitter_ready) hello start in
  let p := mapTwitterTweetToPost 1000 hello_tweet with_author in
  Post.platform p = getPlatform (Twitter twitter_ready) /\
  reported_by twitter_echoes_hello (Twitter twitter_ready) hello start p /\
  Forall (fun q => Post.platform q = getPlatform (Twitter twitter_ready)) [p] /\
  map Post.content [p] =
    feed_texts twitter_echoes_hello (Twitter twitter_ready) FeedOptions.empty (world posted) /\
  (forall t,
     In t (feed_texts twitter_echoes_hello (Twitter twitter_ready) FeedOptions.empty
             (world posted)) ->
     exists q, In q [p] /\ Post.content q = t /\
               Post.platform q = getPlatform (Twitter twitter_ready)).
Proof.
  apply (post_then_feed clock_text twitter_echoes_hello (Twitter twitter_ready) hello start
           FeedOptions.empty (mapTwitterTweetToPost 1000 hello_tweet with_author)
           [mapTwitterTweetToPost 1000 hello_tweet with_author]);
    reflexivity.
Defined.

(** The round trip above, evaluated: the tweet 'hello' is posted and
    read back with content 'hello' and tag twitter. *)
Example twitter_hello_round_trip :
  let posted := post clock_text twitter_echoes_hello (Twitter twitter_ready) hello start in
  option_map Post.content
    (match outcome (getFeed clock_text twitter_echoes_hello (fields posted)
                            FeedOptions.empty (world posted)) with
     | inr (q :: _) => Some q
     | _ => None
     end) = Some "hello" /\
  issued start (world posted)
    = [TwTweet "hello" None; TwSingleTweet "1460323737035677698"].
Proof. split; reflexivity. Qed.

(** C5, as stated, fails: on an Instagram instance with a session, the post
    of the text 'hello' alone is rejected before any call, for want of an
    image or video, so there is no Post to read back. *)
Lemma instagram_rejects_text_only_post :
  post clock_text offline (Instagram instagram_ready) hello start =
    (inl (createError INSTAGRAM "Instagram requires an image or video URL to post" None None),
     Instagram instagram_ready, start) /\
  issued start (world (post clock_text offline (Instagram instagram_ready) hello start)) = [].
Proof. split; reflexivity. Qed.

(* ===================================================================== *)
(** ** Nothing but PlatformErrors leaves an adapter *)
(* ===================================================================== *)

Lemma handleError_platform fmt (platform : Platform) (now : Z) (error : Err.t) :
  Err.platform (handleError fmt platform now error) = Some platform.
Proof.
  unfold handleError.
  repeat match goal with
         | |- context [if ?b then _ else _] => destruct b
         end; reflexivity.
Qed.

(** What a method throws went through the handler of its class. *)
Lemma guarded_throws {St A} fmt (platform : Platform) (body : M St A) (s : St) (w : World)
    (e : Err.t) :
  outcome (guarded fmt platform body s w) = inl e ->
  exists n raw, e = handleError fmt platform n raw.
Proof.
  unfold outcome, guarded, try_catch, rethrow, bind, date_now, throw.
  destruct (body s w) as [[[raw | a] s'] w']; simpl; intros H; [ | discriminate H ].
  injection H as <-. exists (now w'), raw. reflexivity.
Qed.

Lemma outcome_as_value_throws {A} (val : A -> Value)
    (r : (Err.t + A) * SocialPlatform * World) (e : Err.t) :
  outcome (as_value val r) = inl e -> outcome r = inl e.
Proof.
  destruct r as [[[e0 | a] s] w]; unfold outcome; simpl; intros H;
    [ injection H as <-; reflexivity | discriminate H ].
Qed.

(** Every error an operation of an adapter throws is tagged with the
    platform of the adapter. *)
Lemma thrown_errors_are_platform_errors fmt (vendor : Vendor) (a : SocialPlatform)
    (op : Operation) (w : World) (e : Err.t) :
  outcome (call fmt vendor a op w) = inl e ->
  Err.platform e = Some (getPlatform a).
Proof.
  intros H.
  assert (Hraw : exists n raw, e = handleError fmt (getPlatform a) n raw).
  { destruct op; unfold call in H; apply outcome_as_value_throws in H; rename H into Hr;
      destruct a as [s | s | s];
      cbn [authenticate getMe getFeed post engage search getPlatform] in *;
      rewrite outcome_lift in Hr; revert Hr; apply guarded_throws. }
  destruct Hraw as [n [raw ->]]. apply handleError_platform.
Qed.

(* ===================================================================== *)
(** ** Platform names *)
(* ===================================================================== *)


(* ===================================================================== *)
(** ** Errors that pass the handler more than once *)
(* ===================================================================== *)

Lemma or_str_nonempty (a : option string) (d : string) :
  nonempty d = true -> nonempty (or_str a d) = true.
Proof.
  intros Hd. destruct a as [[| c s] |]; simpl; auto.
Qed.

Lemma or_str_fixed (a : option string) (d : string) :
  nonempty d = true -> or_str (Some (or_str a d)) d = or_str a d.
Proof.
  intros Hd. simpl. rewrite (or_str_nonempty a d Hd). reflexivity.
Qed.

(** The status code an unclassified error is rethrown with is not a
    classified one. *)
Lemma passthrough_status (error : Err.t) (n : Z) :
  status_is error n = false ->
  code_is (if code_truthy (Err.statusCode error) then Err.statusCode error
           else Err.code error) n = false.
Proof.
  unfold status_is. intros H. apply orb_false_iff in H. destruct H as [Hc Hs].
  destruct (code_truthy (Err.statusCode error)); assumption.
Qed.

Lemma default_message_nonempty (platform : Platform) :
  nonempty ("An error occurred with " ++ platform_str platform) = true.
Proof. reflexivity. Qed.

(** What the handler throws, by cases on the four tests it makes. *)
Lemma handleError_cases fmt (platform : Platform) (now : Z) (error : Err.t) :
  let raised := handleError fmt platform now error in
  (status_is error 429 = true /\ Err.statusCode raised = Some (CNum 429)) \/
  (status_is error 401 = true /\
   raised = createError platform (authentication_message platform) (Some (CNum 401)) None) \/
  (status_is error 403 = true /\ Err.statusCode raised = Some (CNum 403)) \/
  (status_is error 402 = true /\ Err.statusCode raised = Some (CNum 402)) \/
  (status_is error 429 = false /\ status_is error 401 = false /\
   status_is error 403 = false /\ status_is error 402 = false /\
   raised = createError platform
              (or_str (Err.message error) ("An error occurred with " ++ platform_str platform))
              (if code_truthy (Err.statusCode error) then Err.statusCode error
               else Err.code error) None).
Proof.
  cbv zeta. unfold handleError.
  destruct (status_is error 429) eqn:E1.
  { left. split; [ reflexivity | ].
    destruct (Err.rateLimit_reset error) as [r |]; [ destruct (r =? 0) | ]; reflexivity. }
  destruct (status_is error 401) eqn:E2; [ right; left; auto | ].
  destruct (status_is error 403) eqn:E3; [ right; right; left; auto | ].
  destruct (status_is error 402) eqn:E4.
  { right; right; right; left. split; [ reflexivity | ].
    destruct (Err.data_title error) as [t |]; [ destruct (String.eqb t _) | ]; reflexivity. }
  right; right; right; right. auto.
Qed.

Lemma handled_has_no_code fmt (platform : Platform) (now : Z) (error : Err.t) :
  Err.code (handleError fmt platform now error) = None.
Proof.
  unfold handleError.
  repeat match goal with
         | |- context [if ?b then _ else _] => destruct b
         end; reflexivity.
Qed.

Lemma status_of_handled fmt (platform : Platform) (now : Z) (error : Err.t) (n : Z) :
  status_is (handleError fmt platform now error) n =
  code_is (Err.statusCode (handleError fmt platform now error)) n.
Proof. unfold status_is. rewrite handled_has_no_code. reflexivity. Qed.

Lemma unclassified_number (n : Z) :
  (n =? 429) = false -> (n =? 401) = false -> (n =? 403) = false -> (n =? 402) = false ->
  match n with
  | 403 => PermissionDenied
  | 429 => RateLimited
  | 401 => AuthenticationFailed
  | 402 => QuotaExhausted
  | _ => Unknown
  end = Unknown.
Proof.
  intros P1 P2 P3 P4.
  destruct n as [| p | p]; try reflexivity.
  do 9 (try (destruct p as [p | p |]; try reflexivity)); discriminate.
Qed.

(** X2.  An error that a method catches from a nested call and hands to the
    handler again keeps its platform tag, its status class (401, 402, 403,
    429, or none of them) and hence its taxonomy kind; an authentication
    error and an unclassified error also keep their message. *)
Theorem rehandling_keeps_kind fmt (platform : Platform) (now now' : Z) (error : Err.t) :
  let first := handleError fmt platform now error in
  let second := handleError fmt platform now' first in
  taxonomy_kind second = taxonomy_kind first /\
  Err.platform second = Some platform /\
  (taxonomy_kind first = AuthenticationFailed \/ taxonomy_kind first = Unknown ->
   Err.message second = Err.message first).
Proof.
  cbv zeta.
  split; [ | split; [ apply handleError_platform | ] ].
  - destruct (handleError_cases fmt platform now error)
      as [[_ H] | [[_ H] | [[_ H] | [[_ H] | [N1 [N2 [N3 [N4 H]]]]]]]]; cbv zeta in H.
    + pose proof (handleError_cases fmt platform now' (handleError fmt platform now error))
        as H'. cbv zeta in H'. rewrite !status_of_handled, H in H'. simpl in H'.
      destruct H' as [[_ H'] | [[F _] | [[F _] | [[F _] | [F _]]]]]; try discriminate.
      unfold taxonomy_kind. rewrite H, H'. reflexivity.
    + rewrite H. reflexivity.
    + pose proof (handleError_cases fmt platform now' (handleError fmt platform now error))
        as H'. cbv zeta in H'. rewrite !status_of_handled, H in H'. simpl in H'.
      destruct H' as [[F _] | [[F _] | [[_ H'] | [[F _] | [_ [_ [F _]]]]]]]; try discriminate.
      unfold taxonomy_kind. rewrite H, H'. reflexivity.
    + pose proof (handleError_cases fmt platform now' (handleError fmt platform now error))
        as H'. cbv zeta in H'. rewrite !status_of_handled, H in H'. simpl in H'.
      destruct H' as [[F _] | [[F _] | [[F _] | [[_ H'] | [_ [_ [_ [F _]]]]]]]];
        try discriminate.
      unfold taxonomy_kind. rewrite H, H'. reflexivity.
    + rewrite H.
      pose proof (passthrough_status error 429 N1) as P1.
      pose proof (passthrough_status error 401 N2) as P2.
      pose proof (passthrough_status error 403 N3) as P3.
      pose proof (passthrough_status error 402 N4) as P4.
      remember (if code_truthy (Err.statusCode error) then Err.statusCode error
                else Err.code error) as sc.
      unfold handleError, status_is. simpl. rewrite P1, P2, P3, P4. simpl.
      unfold taxonomy_kind. simpl.
      destruct sc as [[n | str] |]; simpl in *; try reflexivity.
      * rewrite (unclassified_number n P1 P2 P3 P4).
        destruct (negb (n =? 0)); [ apply (unclassified_number n P1 P2 P3 P4) | reflexivity ].
      * destruct (nonempty str); reflexivity.
  - intros Hk.
    destruct (handleError_cases fmt platform now error)
      as [[_ H] | [[_ H] | [[_ H] | [[_ H] | [N1 [N2 [N3 [N4 H]]]]]]]]; cbv zeta in H.
    + exfalso. unfold taxonomy_kind in Hk. rewrite H in Hk.
      destruct Hk; discriminate.
    + rewrite H. reflexivity.
    + exfalso. unfold taxonomy_kind in Hk. rewrite H in Hk. destruct Hk; discriminate.
    + exfalso. unfold taxonomy_kind in Hk. rewrite H in Hk. destruct Hk; discriminate.
    + rewrite H.
      pose proof (passthrough_status error 429 N1) as P1.
      pose proof (passthrough_status error 401 N2) as P2.
      pose proof (passthrough_status error 403 N3) as P3.
      pose proof (passthrough_status error 402 N4) as P4.
      unfold handleError, status_is. simpl. rewrite P1, P2, P3, P4. simpl.
      rewrite (or_str_nonempty _ _ (default_message_nonempty platform)). reflexivity.
Qed.

(* ===================================================================== *)
(** ** What leaves an adapter, and what the post command records *)
(* ===================================================================== *)

Lemma handleError_message fmt (platform : Platform) (now : Z) (error : Err.t) :
  exists m, Err.message (handleError fmt platform now error) = Some m /\ nonempty m = true.
Proof.
  unfold handleError.
  repeat match goal with
         | |- context [if ?b then _ else _] => destruct b
         end;
    eexists; (split; [ reflexivity | ]);
    try reflexivity; try (destruct platform; reflexivity).
  all: apply or_str_nonempty; reflexivity.
Qed.

(** What an operation throws has been made by the handler of its class. *)
Lemma thrown_error_is_handled fmt (vendor : Vendor) (a : SocialPlatform)
    (op : Operation) (w : World) (e : Err.t) :
  outcome (call fmt vendor a op w) = inl e ->
  exists n raw, e = handleError fmt (getPlatform a) n raw.
Proof.
  intros H.
  destruct op; unfold call in H; apply outcome_as_value_throws in H;
    destruct a as [s | s | s];
    cbn [authenticate getMe getFeed post engage search getPlatform] in *;
    rewrite outcome_lift in H; revert H; apply guarded_throws.
Qed.

(** X3.  Whatever a vendor's client library throws, what an operation of an
    adapter throws is an error made by [createError]: tagged with the platform
    of the adapter, with a non-empty message and without the library's [code]
    field. *)
Theorem thrown_error_is_tagged fmt (vendor : Vendor) (a : SocialPlatform)
    (op : Operation) (w : World) (e : Err.t) :
  outcome (call fmt vendor a op w) = inl e ->
  Err.platform e = Some (getPlatform a) /\
  Err.code e = None /\
  exists m, Err.message e = Some m /\ nonempty m = true.
Proof.
  intros H. destruct (thrown_error_is_handled _ _ _ _ _ _ H) as [n [raw ->]].
  split; [ apply handleError_platform | ].
  split; [ apply handled_has_no_code | apply handleError_message ].
Qed.

Lemma thrown_error_is_tagged_witness :
  Err.platform (createError INSTAGRAM "Network Error" None None)
    = Some (getPlatform (Instagram instagram_ready)) /\
  Err.code (createError INSTAGRAM "Network Error" None None) = None /\
  exists m, Err.message (createError INSTAGRAM "Network Error" None None) = Some m /\
            nonempty m = true.
Proof.
  apply (thrown_error_is_tagged clock_text offline (Instagram instagram_ready) GetMe start).
  reflexivity.
Defined.

Lemma post_throws_as_call fmt (vendor : Vendor) (a : SocialPlatform) (o : PostOptions.t)
    (w : World) (e : Err.t) :
  outcome (post fmt vendor a o w) = inl e ->
  outcome (call fmt vendor a (CreatePost o) w) = inl e.
Proof.
  unfold call, outcome. destruct (post fmt vendor a o w) as [[[e0 | p] a'] w']; simpl;
    intros H; [ injection H as <-; reflexivity | discriminate H ].
Qed.

(** X4.  The array of results of the post command has one record per instance;
    a success record carries the post id and no error, a failure record no post
    id and a non-empty error message; so the two counts of the summary line
    satisfy successCount <= totalCount = number of instances. *)
Theorem results_are_well_formed fmt (vendor : Vendor) (platforms : list SocialPlatform)
    (o : PostOptions.t) (w : World) :
  let results := fst (post_each fmt vendor platforms o w) in
  Forall record_well_formed results /\
  totalCount results = length platforms /\
  (successCount results <= totalCount results)%nat.
Proof.
  cbv zeta. split; [ | split ].
  - revert w. induction platforms as [| a rest IH]; intros w.
    + constructor.
    + rewrite post_each_cons. constructor; [ | apply IH ].
      destruct (outcome (post fmt vendor a o w)) as [e | p] eqn:E;
        unfold record_well_formed; simpl.
      * split; [ reflexivity | ].
        destruct (thrown_error_is_handled _ _ _ _ _ _ (post_throws_as_call _ _ _ _ _ _ E))
          as [n [raw ->]]. apply handleError_message.
      * split; [ reflexivity | discriminate ].
  - unfold totalCount. rewrite <- (length_map PostResult.platform),
      post_each_platforms, length_map. reflexivity.
  - unfold successCount, totalCount. apply filter_length_le.
Qed.

(* ===================================================================== *)
(** ** The media of a mapped Post *)
(* ===================================================================== *)

Lemma truthy_or_str (a : option string) (d : string) :
  truthy a = true -> nonempty (or_str a d) = true.
Proof. destruct a as [[| c s] |]; simpl; try discriminate; reflexivity. Qed.

Lemma entity_urls_nonempty (entities : list ContentEntity.t) :
  Forall (fun u => nonempty u = true) (entity_urls entities).
Proof.
  induction entities as [| entity rest IH]; simpl; [ constructor | ].
  destruct (truthy (ContentEntity.entityLocation entity)) eqn:E.
  - constructor; [ apply truthy_or_str; exact E | exact IH ].
  - destruct (ContentEntity.thumbnails entity) as [[| resolvedUrl thumbs] |]; try exact IH.
    destruct (nonempty resolvedUrl) eqn:N; [ constructor; assumption | exact IH ].
Qed.

Lemma media_urls_nonempty (media : list MediaV2.t) (media_keys : list string) :
  Forall (fun u => nonempty u = true) (media_urls media media_keys).
Proof.
  induction media_keys as [| key rest IH]; simpl; [ constructor | ].
  destruct (find _ media) as [m |]; [ | exact IH ].
  destruct (truthy (MediaV2.url m)) eqn:E.
  - constructor; [ apply truthy_or_str; exact E | exact IH ].
  - destruct (truthy (MediaV2.preview_image_url m)) eqn:E'; [ | exact IH ].
    constructor; [ apply truthy_or_str; exact E' | exact IH ].
Qed.

Lemma some_unless_empty (urls : list string) :
  Forall (fun u => nonempty u = true) urls ->
  match match urls with [] => None | _ => Some urls end with
  | None => True
  | Some l => l <> [] /\ Forall (fun u => nonempty u = true) l
  end.
Proof. intros H. destruct urls; [ exact I | split; [ discriminate | exact H ] ]. Qed.

(** X5.  Whatever the vendor payload, the [mediaUrls] of a Post built by any of
    the three mappings is either absent or a non-empty list of non-empty URLs:
    never an empty array and never an empty string; a media key without a
    matching included medium, a medium without URL and preview, and an entity
    without location and thumbnail are skipped. *)
Theorem mapped_media_is_well_formed (now : Z) (tweet : TweetV2.t) (incl : option Includes.t)
    (media : InstagramMedia.t) (post : LinkedInPost.t) (author : User.t) :
  media_well_formed (mapTwitterTweetToPost now tweet incl) /\
  media_well_formed (mapInstagramMediaToPost media author) /\
  media_well_formed (mapLinkedInPostToPost post author) /\
  (length (entity_urls (or_nil (LinkedInPost.content_contentEntities post)))
     <= length (or_nil (LinkedInPost.content_contentEntities post)))%nat /\
  (forall keys items, (length (media_urls items keys) <= length keys)%nat).
Proof.
  unfold media_well_formed. repeat split.
  - unfold mapTwitterTweetToPost. cbn [Post.mediaUrls].
    apply some_unless_empty.
    destruct (TweetV2.attachments_media_keys tweet), (includes_media incl);
      try constructor. apply media_urls_nonempty.
  - unfold mapInstagramMediaToPost. cbn [Post.mediaUrls].
    destruct (InstagramMedia.media_url media) as [u |]; [ | exact I ].
    destruct (nonempty u) eqn:N; [ | exact I ].
    split; [ discriminate | constructor; [ exact N | constructor ] ].
  - unfold mapLinkedInPostToPost. cbn [Post.mediaUrls].
    apply some_unless_empty.
    destruct (LinkedInPost.content_contentEntities post); [ | constructor ].
    apply entity_urls_nonempty.
  - induction (or_nil (LinkedInPost.content_contentEntities post)) as [| e es IH];
      simpl; [ lia | ].
    destruct (truthy (ContentEntity.entityLocation e)); simpl; [ lia | ].
    destruct (ContentEntity.thumbnails e) as [[| r t] |]; try lia.
    destruct (nonempty r); simpl; lia.
  - intros keys items. induction keys as [| k ks IH]; simpl; [ lia | ].
    destruct (find _ items) as [m |]; [ | lia ].
    destruct (truthy (MediaV2.url m)); simpl; [ lia | ].
    destruct (truthy (MediaV2.preview_image_url m)); simpl; lia.
Qed.

(* ===================================================================== *)
(** ** The page sizes Twitter is asked for *)
(* ===================================================================== *)

Lemma issued_after (w : World) (calls : list Call) (t : Z) :
  issued w (mkWorld (log w ++ calls) t) = calls.
Proof.
  unfold issued. simpl. rewrite skipn_app, skipn_all, Nat.sub_diag. reflexivity.
Qed.

Lemma clamp_bounds (lo limit : Z) :
  lo <= 100 ->
  lo <= TwitterPlatform.clamp lo limit <= 100 /\
  (lo <= limit <= 100 -> TwitterPlatform.clamp lo limit = limit).
Proof. unfold TwitterPlatform.clamp. lia. Qed.

(** X6.  On a Twitter instance with a client whose identity probe is answered,
    [getMyPosts] asks for the user's timeline with a page size between 5 and
    100, the limit itself when it lies in that range, and [getFollowingFeed]
    asks for the home timeline without replies with a page size between 1 and
    100; [getFeed] passes its limit on as it is, and 20 when it is absent or
    zero. *)
Theorem twitter_page_sizes fmt (vendor : Vendor) (s : TwitterPlatform.t) (w : World)
    (limit : Z) (options : FeedOptions.t) (me : UserV2.t) :
  TwitterPlatform.client s <> None ->
  vendor (log w) TwMe = inr me ->
  (exists n,
     issued w (world (TwitterPlatform.getMyPosts fmt vendor limit s w))
       = [TwMe; TwUserTimeline (UserV2.id me) n] /\
     5 <= n <= 100 /\ (5 <= limit <= 100 -> n = limit)) /\
  (exists n,
     issued w (world (TwitterPlatform.getFollowingFeed fmt vendor limit s w))
       = [TwHomeTimeline n true] /\
     1 <= n <= 100 /\ (1 <= limit <= 100 -> n = limit)) /\
  issued w (world (TwitterPlatform.getFeed fmt vendor options s w))
    = [TwMe; TwHomeTimeline (or_num (FeedOptions.limit options) 20) false].
Proof.
  intros Hc Hme. destruct s as [cfg [c |] rw]; [ | exfalso; apply Hc; reflexivity ].
  split; [ | split ].
  - exists (TwitterPlatform.clamp 5 limit).
    split; [ | apply clamp_bounds; lia ].
    unfold TwitterPlatform.getMyPosts, TwitterPlatform.getMe, guarded, try_catch, rethrow,
      bind, this, throw, date_now, request, world. simpl. rewrite Hme. simpl.
    destruct (vendor _ (TwUserTimeline _ _)) as [e | page]; simpl;
      rewrite ?map_page_total; simpl; rewrite <- app_assoc; apply issued_after.
  - exists (TwitterPlatform.clamp 1 limit).
    split; [ | apply clamp_bounds; lia ].
    unfold TwitterPlatform.getFollowingFeed, guarded, try_catch, rethrow,
      bind, this, throw, date_now, request, world. simpl.
    destruct (vendor _ (TwHomeTimeline _ _)) as [e | page]; simpl;
      rewrite ?map_page_total; simpl; apply issued_after.
  - unfold TwitterPlatform.getFeed, TwitterPlatform.getMe, guarded, try_catch, rethrow,
      bind, this, throw, date_now, request, world. simpl. rewrite Hme. simpl.
    destruct (vendor _ (TwHomeTimeline _ _)) as [e | page]; simpl;
      rewrite ?map_page_total; simpl; rewrite <- app_assoc; apply issued_after.
Qed.

Lemma twitter_page_sizes_witness :
  (exists n,
     issued start (world (TwitterPlatform.getMyPosts clock_text twitter_up 1 twitter_ready start))
       = [TwMe; TwUserTimeline (UserV2.id twitter_me) n] /\
     5 <= n <= 100 /\ (5 <= 1 <= 100 -> n = 1)) /\
  (exists n,
     issued start
       (world (TwitterPlatform.getFollowingFeed clock_text twitter_up 1 twitter_ready start))
       = [TwHomeTimeline n true] /\
     1 <= n <= 100 /\ (1 <= 1 <= 100 -> n = 1)) /\
  issued start
    (world (TwitterPlatform.getFeed clock_text twitter_up FeedOptions.empty twitter_ready start))
    = [TwMe; TwHomeTimeline (or_num (FeedOptions.limit FeedOptions.empty) 20) false].
Proof.
  apply (twitter_page_sizes clock_text twitter_up twitter_ready start 1 FeedOptions.empty
           twitter_me).
  - discriminate.
  - reflexivity.
Defined.

(* ===================================================================== *)
(** ** The order of the calls of a post *)
(* ===================================================================== *)




Lemma in_firstn {A} (k : nat) (x : A) (l : list A) : In x (firstn k l) -> In x l.
Proof.
  revert l. induction k as [| k IH]; intros [| y l]; simpl; try contradiction.
  intros [H | H]; [ left; exact H | right; apply IH; exact H ].
Qed.





(* ===================================================================== *)
(** ** Twitter with a bearer token only *)
(* ===================================================================== *)

(** X9.  When the config yields the app-only client only (a bearer token, and the
    four OAuth 1.0a values not all present), [authenticate] on a fresh
    Twitter instance assigns [client] and leaves [readWriteClient] unset,
    whether the identity probe then succeeds or not.  On the instance it
    leaves, [post] and [engage] throw 'Write access not available. Need OAuth
    1.0a credentials.' without any call, whatever their options, while
    [search] passes its guard and issues its one request. *)
Theorem app_only_twitter_is_read_only fmt (vendor : Vendor) (cfg : PlatformConfig.t)
    (bearer : string) (w : World) :
  twitter_client_for cfg = Some (TwitterPlatform.AppOnly bearer) ->
  let s := fields (TwitterPlatform.authenticate fmt vendor (TwitterPlatform.new cfg) w) in
  TwitterPlatform.client s = Some (TwitterPlatform.AppOnly bearer) /\
  TwitterPlatform.readWriteClient s = None /\
  forall w',
    (forall o, TwitterPlatform.post fmt vendor o s w' =
               (inl (TwitterPlatform.error TwitterPlatform.no_write_access), s, w')) /\
    (forall o, TwitterPlatform.engage fmt vendor o s w' =
               (inl (TwitterPlatform.error TwitterPlatform.no_write_access), s, w')) /\
    (forall o, issued w' (world (TwitterPlatform.search fmt vendor o s w')) =
               [TwSearch (SearchOptions.query o) (or_num (SearchOptions.limit o) 20)
                         (SearchOptions.startTime o) (SearchOptions.endTime o)]).
Proof.
  intros Hc. cbv zeta. rewrite twitter_authenticate_run.
  cbn [TwitterPlatform.new TwitterPlatform.config]. rewrite Hc.
  rewrite (unchanged_run _ _ _ (twitter_getMe_unchanged fmt vendor)).
  set (s := TwitterPlatform.set_client _ _).
  assert (Hs : fields
                 (match outcome (TwitterPlatform.getMe fmt vendor s w) with
                  | inr _ => (inr tt, s, world (TwitterPlatform.getMe fmt vendor s w))
                  | inl e =>
                      (inl (handleError fmt TWITTER
                              (now (world (TwitterPlatform.getMe fmt vendor s w))) e),
                       s, world (TwitterPlatform.getMe fmt vendor s w))
                  end : (Err.t + unit) * TwitterPlatform.t * World) = s).
  { destruct (outcome _); reflexivity. }
  match goal with
  | |- context [fields ?r] => change (fields r) with
        (fields
           (match outcome (TwitterPlatform.getMe fmt vendor s w) with
            | inr _ => (inr tt, s, world (TwitterPlatform.getMe fmt vendor s w))
            | inl e =>
                (inl (handleError fmt TWITTER
                        (now (world (TwitterPlatform.getMe fmt vendor s w))) e),
                 s, world (TwitterPlatform.getMe fmt vendor s w))
            end : (Err.t + unit) * TwitterPlatform.t * World))
  end.
  rewrite Hs. subst s. unfold TwitterPlatform.set_client, TwitterPlatform.new.
  cbn [TwitterPlatform.client TwitterPlatform.readWriteClient TwitterPlatform.config].
  split; [ reflexivity | ]. split; [ reflexivity | ].
  intros w'. split; [ | split ]; intros o.
  - reflexivity.
  - reflexivity.
  - unfold TwitterPlatform.search, guarded, try_catch, rethrow, bind, this, throw, date_now,
      request, world. simpl.
    destruct (vendor (log w') (TwSearch _ _ _ _)) as [e | page]; simpl;
      rewrite ?map_page_total; simpl; apply issued_after.
Qed.

Lemma app_only_twitter_is_read_only_witness :
  let s := fields (TwitterPlatform.authenticate clock_text twitter_up
                     (TwitterPlatform.new twitter_bearer_config) start) in
  TwitterPlatform.client s = Some (TwitterPlatform.AppOnly "bearer") /\
  TwitterPlatform.readWriteClient s = None /\
  forall w',
    (forall o, TwitterPlatform.post clock_text twitter_up o s w' =
               (inl (TwitterPlatform.error TwitterPlatform.no_write_access), s, w')) /\
    (forall o, TwitterPlatform.engage clock_text twitter_up o s w' =
               (inl (TwitterPlatform.error TwitterPlatform.no_write_access), s, w')) /\
    (forall o, issued w' (world (TwitterPlatform.search clock_text twitter_up o s w')) =
               [TwSearch (SearchOptions.query o) (or_num (SearchOptions.limit o) 20)
                         (SearchOptions.startTime o) (SearchOptions.endTime o)]).
Proof.
  apply (app_only_twitter_is_read_only clock_text twitter_up twitter_bearer_config
           "bearer" start).
  reflexivity.
Defined.

(* ===================================================================== *)
(** ** getPlatformInstance *)
(* ===================================================================== *)

(** The credentials [getCredentials] accepts for Instagram and LinkedIn pass
    the check that [authenticate] makes of them. *)
Lemma instagram_credentials_pass (env : Env) (cfg : PlatformConfig.t) :
  getCredentials env INSTAGRAM = Some cfg ->
  (negb (nonempty (PlatformConfig.accessToken cfg))
   || negb (truthy (PlatformConfig.userId cfg)))%bool = false.
Proof.
  unfold getCredentials. cbv zeta.
  destruct (truthy (env "INSTAGRAM_ACCESS_TOKEN")) eqn:Ht; simpl; [ | discriminate ].
  destruct (truthy (env "INSTAGRAM_USER_ID")) eqn:Hu; simpl; [ | discriminate ].
  intros H. injection H as <-. cbn [PlatformConfig.accessToken PlatformConfig.userId].
  rewrite Hu. unfold truthy in Ht.
  destruct (env "INSTAGRAM_ACCESS_TOKEN") as [t |]; [ | discriminate ].
  simpl. rewrite Ht. simpl. rewrite ?Ht. reflexivity.
Qed.

Lemma linkedin_credentials_pass (env : Env) (cfg : PlatformConfig.t) :
  getCredentials env LINKEDIN = Some cfg ->
  negb (nonempty (PlatformConfig.accessToken cfg)) = false.
Proof.
  unfold getCredentials. cbv zeta.
  destruct (truthy (env "LINKEDIN_ACCESS_TOKEN")) eqn:Ht; simpl; [ | discriminate ].
  intros H. injection H as <-. cbn [PlatformConfig.accessToken].
  unfold truthy in Ht.
  destruct (env "LINKEDIN_ACCESS_TOKEN") as [t |]; [ | discriminate ].
  simpl. rewrite Ht. simpl. rewrite ?Ht. reflexivity.
Qed.

Ltac heads :=
  split; [ first [ reflexivity | symmetry; apply app_nil_r ] | split; [ reflexivity | ] ].

(** The outcomes of [getPlatformInstance], with the calls made. *)
Lemma getPlatformInstance_cases fmt (vendor : Vendor) (env : Env) (p : Platform)
    (w : World) :
  let r := getPlatformInstance fmt vendor env p w in
  let calls := issued w (snd r) in
  log (snd r) = (log w ++ calls)%list /\
  now (snd r) = now w /\
  match fst r with
  | inr a =>
      getPlatform a = p /\
      getCredentials env p = Some (config_of a) /\
      client_from_config a /\
      calls = [probe a] /\
      exists me, vendor (log w) (probe a) = inr me
  | inl e =>
      (getCredentials env p = None /\ calls = [] /\
       e = plainError ("No credentials found for " ++ platform_str p ++
                       ". Please run 'social-cli auth setup' first.")) \/
      (p = TWITTER /\
       (exists cfg, getCredentials env p = Some cfg /\ twitter_client_for cfg = None) /\
       calls = [] /\
       e = TwitterPlatform.error "Missing Twitter API credentials") \/
      (exists cfg raw,
         getCredentials env p = Some cfg /\
         calls = [probe (construct p cfg)] /\
         vendor (log w) (probe (construct p cfg)) = inl raw /\
         e = handleError fmt p (now w) (handleError fmt p (now w) raw))
  end.
Proof.
  cbv zeta. unfold getPlatformInstance.
  destruct (getCredentials env p) as [cfg |] eqn:Hcfg;
    [ | cbn [fst snd]; rewrite issued_nothing; heads; left; repeat split ].
  destruct p; cbn [construct authenticate]; unfold lift.
  - rewrite twitter_authenticate_run. cbn [TwitterPlatform.new TwitterPlatform.config].
    destruct (twitter_client_for cfg) as [c |] eqn:Hc.
    + assert (Hrun : forall s, TwitterPlatform.client s <> None ->
                TwitterPlatform.getMe fmt vendor s w =
                match vendor (log w) TwMe with
                | inr me => (inr (mapTwitterUserToUser me), s,
                             mkWorld (log w ++ [TwMe]) (now w))
                | inl raw => (inl (handleError fmt TWITTER (now w) raw), s,
                              mkWorld (log w ++ [TwMe]) (now w))
                end).
      { intros [cfg' [c' |] rw] Hs; [ | exfalso; apply Hs; reflexivity ].
        unfold TwitterPlatform.getMe, guarded, try_catch, rethrow, bind, this, throw,
          date_now, request, ret. simpl.
        destruct (vendor (log w) TwMe); reflexivity. }
      rewrite Hrun by (destruct c; discriminate).
      destruct (vendor (log w) TwMe) as [raw | me] eqn:Hme; cbn [fst snd now log];
        rewrite issued_after; heads.
      * right. right. exists cfg, raw. repeat split; assumption.
      * split; [ reflexivity | ].
        split; [ destruct c; reflexivity | ].
        split; [ destruct c; simpl; (split; [ discriminate | symmetry; exact Hc ]) | ].
        split; [ reflexivity | ].
        exists me. destruct c; exact Hme.
    + cbn [fst snd]. rewrite issued_nothing. heads.
      right. left. split; [ reflexivity | ].
      split; [ exists cfg; split; [ reflexivity | assumption ] | ].
      split; reflexivity.
  - rewrite instagram_authenticate_run. cbv zeta.
    cbn [InstagramPlatform.new InstagramPlatform.config].
    rewrite (instagram_credentials_pass env cfg Hcfg).
    unfold InstagramPlatform.getMe, InstagramPlatform.set_client, guarded, try_catch,
      rethrow, bind, this, throw, date_now, request, ret. simpl.
    destruct (vendor (log w) (IgGetUser _)) as [raw | me] eqn:Hme; cbn [fst snd now log];
      rewrite issued_after; heads.
    + right. right. exists cfg, raw. repeat split; assumption.
    + repeat split. exists me. exact Hme.
  - rewrite linkedin_authenticate_run. cbv zeta.
    cbn [LinkedInPlatform.new LinkedInPlatform.config].
    rewrite (linkedin_credentials_pass env cfg Hcfg).
    unfold LinkedInPlatform.getMe, LinkedInPlatform.set_client, guarded, try_catch,
      rethrow, bind, this, throw, date_now, request, ret. simpl.
    destruct (vendor (log w) LiMe) as [raw | me] eqn:Hme; cbn [fst snd now log];
      rewrite issued_after; heads.
    + right. right. exists cfg, raw. repeat split; assumption.
    + repeat split. exists me. exact Hme.
Qed.

(** X10.  [getPlatformInstance], outcome by outcome.  It returns an instance only
    when credentials were found and the vendor answered the identity probe,
    which is then the one call made; the instance is of the platform asked
    for, holds the credentials found, and its client is the one built from
    them.  It throws without any call when no credentials are found, or when
    the Twitter credentials found hold neither the four OAuth 1.0a values nor
    a bearer token (an access token alone is accepted by [getCredentials]);
    otherwise it throws what the handler makes, applied twice, of the
    vendor's refusal of the probe.  Instagram and LinkedIn credentials that
    were found always reach the probe. *)
Theorem getPlatformInstance_outcomes fmt (vendor : Vendor) (env : Env) (p : Platform)
    (w : World) :
  let r := getPlatformInstance fmt vendor env p w in
  let calls := issued w (snd r) in
  log (snd r) = (log w ++ calls)%list /\
  now (snd r) = now w /\
  match fst r with
  | inr a =>
      getPlatform a = p /\
      getCredentials env p = Some (config_of a) /\
      client_from_config a /\
      calls = [probe a] /\
      exists me, vendor (log w) (probe a) = inr me
  | inl e =>
      (getCredentials env p = None /\ calls = [] /\
       e = plainError ("No credentials found for " ++ platform_str p ++
                       ". Please run 'social-cli auth setup' first.")) \/
      (p = TWITTER /\
       (exists cfg, getCredentials env p = Some cfg /\ twitter_client_for cfg = None) /\
       calls = [] /\
       e = TwitterPlatform.error "Missing Twitter API credentials") \/
      (exists cfg raw,
         getCredentials env p = Some cfg /\
         calls = [probe (construct p cfg)] /\
         vendor (log w) (probe (construct p cfg)) = inl raw /\
         e = handleError fmt p (now w) (handleError fmt p (now w) raw))
  end.
Proof. exact (getPlatformInstance_cases fmt vendor env p w). Qed.

(* ===================================================================== *)
(** ** getMultiplePlatforms *)
(* ===================================================================== *)

Lemma subseq_refl {A} (l : list A) : subseq l l.
Proof. induction l; constructor; assumption. Qed.

Lemma subseq_app_skip {A} (l0 l1 l2 : list A) : subseq l1 l2 -> subseq l1 (l0 ++ l2).
Proof. intros H. induction l0; simpl; [ assumption | constructor; assumption ]. Qed.

Lemma subseq_length {A} (l1 l2 : list A) : subseq l1 l2 -> (length l1 <= length l2)%nat.
Proof. induction 1; simpl; lia. Qed.



(* ===================================================================== *)
(** ** engage *)
(* ===================================================================== *)



(* ===================================================================== *)
(** ** The engage command *)
(* ===================================================================== *)





(* ===================================================================== *)
(** ** The .env file: split, join and trim *)
(* ===================================================================== *)

Lemma split_at_not_nil (sep : ascii) (s : string) : split_at sep s <> [].
Proof.
  destruct s as [| c s]; simpl; [ discriminate | ].
  destruct (Ascii.eqb c sep); [ discriminate | ].
  destruct (split_at sep s); discriminate.
Qed.

(** A string without the separator is one piece. *)
Lemma split_at_free (sep : ascii) (s : string) :
  contains_char sep s = false -> split_at sep s = [s].
Proof.
  induction s as [| c s IH]; simpl; [ reflexivity | ].
  intros H. apply orb_false_iff in H. destruct H as [Hc Hs].
  rewrite Hc, (IH Hs). reflexivity.
Qed.

Lemma split_at_app (sep : ascii) (a b : string) :
  contains_char sep a = false ->
  split_at sep (a ++ String sep b) = a :: split_at sep b.
Proof.
  induction a as [| c a IH]; simpl.
  - intros _. rewrite Ascii.eqb_refl. reflexivity.
  - intros H. apply orb_false_iff in H. destruct H as [Hc Ha].
    rewrite Hc, (IH Ha). reflexivity.
Qed.

(** The pieces hold no separator. *)
Lemma split_at_pieces (sep : ascii) (s : string) :
  Forall (fun piece => contains_char sep piece = false) (split_at sep s).
Proof.
  induction s as [| c s IH]; simpl.
  - constructor; [ reflexivity | constructor ].
  - destruct (Ascii.eqb c sep) eqn:E.
    + constructor; [ reflexivity | exact IH ].
    + destruct (split_at sep s) as [| piece rest].
      * constructor; [ simpl; rewrite E; reflexivity | constructor ].
      * inversion IH as [| ? ? Hp Hr]; subst.
        constructor; [ simpl; rewrite E; exact Hp | exact Hr ].
Qed.

(** Joining lines and splitting the result gives the lines back. *)
Lemma split_at_join (sep : ascii) (l : list string) :
  l <> [] ->
  Forall (fun piece => contains_char sep piece = false) l ->
  split_at sep (join (String sep EmptyString) l) = l.
Proof.
  induction l as [| x l IH]; intros Hne Hall; [ contradiction | ].
  inversion Hall as [| ? ? Hx Hl]; subst.
  destruct l as [| y l].
  - simpl. apply split_at_free. exact Hx.
  - change (join (String sep EmptyString) (x :: y :: l))
      with (x ++ String sep (join (String sep EmptyString) (y :: l))).
    rewrite (split_at_app sep x _ Hx), IH; [ reflexivity | discriminate | exact Hl ].
Qed.

(** Splitting a string and joining the pieces gives the string back. *)
Lemma join_split_at (sep : ascii) (s : string) :
  join (String sep EmptyString) (split_at sep s) = s.
Proof.
  induction s as [| c s IH]; simpl; [ reflexivity | ].
  destruct (Ascii.eqb c sep) eqn:E.
  - apply Ascii.eqb_eq in E. subst c.
    pose proof (split_at_not_nil sep s) as Hne.
    destruct (split_at sep s) as [| piece rest]; [ contradiction | ].
    change (join (String sep EmptyString) (EmptyString :: piece :: rest))
      with (String sep (join (String sep EmptyString) (piece :: rest))).
    rewrite IH. reflexivity.
  - pose proof (split_at_not_nil sep s) as Hne.
    destruct (split_at sep s) as [| piece [| piece' rest]]; [ contradiction | | ].
    + simpl in *. rewrite IH. reflexivity.
    + change (join (String sep EmptyString) (String c piece :: piece' :: rest))
        with (String c (piece ++ String sep (join (String sep EmptyString) (piece' :: rest)))).
      change (join (String sep EmptyString) (piece :: piece' :: rest))
        with (piece ++ String sep (join (String sep EmptyString) (piece' :: rest))) in IH.
      rewrite IH. reflexivity.
Qed.

Lemma prefix_app (p s : string) : String.prefix p s = true <-> exists r, s = p ++ r.
Proof.
  revert s. induction p as [| c p IH]; intros s.
  - split; [ intros _; exists s; reflexivity | ].
    intros _. destruct s; reflexivity.
  - destruct s as [| c' s]; [ split; [ discriminate | intros [r H]; discriminate H ] | ].
    cbn [String.prefix]. destruct (IH s) as [H1 H2].
    destruct (ascii_dec c c') as [-> | Hc].
    + split.
      * intros H. destruct (H1 H) as [r ->]. exists r. reflexivity.
      * intros [r H]. injection H as H. apply H2. exists r. exact H.
    + split; [ discriminate | ]. intros [r H]. injection H as H _. congruence.
Qed.

Lemma prefix_trans (p q s : string) :
  String.prefix p q = true -> String.prefix q s = true -> String.prefix p s = true.
Proof.
  rewrite !prefix_app. intros [r ->] [r' ->]. exists (r ++ r').
  clear. induction p as [| c p IH]; simpl; [ reflexivity | f_equal; exact IH ].
Qed.

Lemma trimEnd_cons (c : ascii) (s : string) :
  is_space c = false -> trimEnd (String c s) = String c (trimEnd s).
Proof. intros H. simpl. rewrite H. destruct (trimEnd s); reflexivity. Qed.

Lemma trimEnd_prefix (s : string) : exists r, s = trimEnd s ++ r.
Proof.
  induction s as [| c s [r IH]]; [ exists EmptyString; reflexivity | ].
  simpl. destruct (trimEnd s) as [| c' t].
  - destruct (is_space c).
    + exists (String c s). reflexivity.
    + exists s. reflexivity.
  - exists r. simpl. f_equal. exact IH.
Qed.

Lemma trimStart_head (s : string) :
  trimStart s = EmptyString \/
  exists c s', trimStart s = String c s' /\ is_space c = false.
Proof.
  induction s as [| c s IH]; [ left; reflexivity | ].
  simpl. destruct (is_space c) eqn:E; [ exact IH | ].
  right. exists c, s. split; [ reflexivity | exact E ].
Qed.

Lemma trimStart_fixed (c : ascii) (s : string) :
  is_space c = false -> trimStart (String c s) = String c s.
Proof. intros H. simpl. rewrite H. reflexivity. Qed.

(** A trimmed string is empty or starts with a character that is not white
    space. *)
Lemma trim_head (s : string) :
  trim s = EmptyString \/ exists c s', trim s = String c s' /\ is_space c = false.
Proof.
  unfold trim. destruct (trimStart_head s) as [-> | [c [s' [-> Hc]]]];
    [ left; reflexivity | ].
  right. rewrite (trimEnd_cons c s' Hc). exists c, (trimEnd s').
  split; [ reflexivity | exact Hc ].
Qed.

Lemma split_at_head (sep : ascii) (s : string) :
  exists key rest r, split_at sep s = key :: rest /\ s = key ++ r.
Proof.
  induction s as [| c s [key [rest [r [E Hs]]]]].
  - exists EmptyString, [], EmptyString. split; reflexivity.
  - simpl. destruct (Ascii.eqb c sep).
    + exists EmptyString, (split_at sep s), (String c s). split; reflexivity.
    + rewrite E. exists (String c key), rest, r. split; [ reflexivity | ].
      simpl. f_equal. exact Hs.
Qed.

Lemma solid_no_equals (pre : string) : solid pre = true -> contains_char "=" pre = false.
Proof.
  induction pre as [| c pre IH]; simpl; [ reflexivity | ].
  intros H. apply andb_true_iff in H. destruct H as [H Hs].
  apply andb_true_iff in H. destruct H as [_ Hc].
  apply negb_true_iff in Hc. rewrite Hc, (IH Hs). reflexivity.
Qed.

Lemma split_at_prefix (sep : ascii) (pre y : string) :
  contains_char sep pre = false ->
  exists y1 rest, split_at sep (pre ++ y) = (pre ++ y1) :: rest.
Proof.
  induction pre as [| c pre IH]; simpl.
  - intros _. pose proof (split_at_not_nil sep y) as Hne.
    destruct (split_at sep y) as [| key rest]; [ contradiction | ].
    exists key, rest. reflexivity.
  - intros H. apply orb_false_iff in H. destruct H as [Hc Hp].
    rewrite Hc. destruct (IH Hp) as [y1 [rest ->]]. exists y1, rest. reflexivity.
Qed.

Lemma trimEnd_solid (pre y : string) :
  solid pre = true -> trimEnd (pre ++ y) = pre ++ trimEnd y.
Proof.
  induction pre as [| c pre IH]; [ reflexivity | ].
  intros H. cbn [solid] in H. apply andb_true_iff in H. destruct H as [H Hs].
  apply andb_true_iff in H. destruct H as [Hc _]. apply negb_true_iff in Hc.
  change (String c pre ++ y) with (String c (pre ++ y)).
  rewrite (trimEnd_cons c _ Hc), (IH Hs). reflexivity.
Qed.

Lemma trim_solid (pre y : string) :
  solid pre = true -> nonempty pre = true -> trim (pre ++ y) = pre ++ trimEnd y.
Proof.
  intros Hs Hne. unfold trim. destruct pre as [| c pre]; [ discriminate | ].
  assert (Hc : is_space c = false).
  { cbn [solid] in Hs. apply andb_true_iff in Hs. destruct Hs as [H _].
    apply andb_true_iff in H. destruct H as [Hc _]. apply negb_true_iff in Hc. exact Hc. }
  change (String c pre ++ y) with (String c (pre ++ y)).
  rewrite (trimStart_fixed c _ Hc).
  change (String c (pre ++ y)) with (String c pre ++ y).
  apply trimEnd_solid. exact Hs.
Qed.

Lemma app_assoc_string (a b c : string) : (a ++ b) ++ c = a ++ (b ++ c).
Proof. induction a as [| x a IH]; simpl; [ reflexivity | f_equal; exact IH ]. Qed.

(** The variable a line sets starts with a solid prefix exactly when the
    trimmed line does. *)
Lemma parse_line_prefix (pre line key value : string) :
  solid pre = true -> nonempty pre = true ->
  parse_line line = Some (key, value) ->
  String.prefix pre key = String.prefix pre (trim line).
Proof.
  intros Hs Hne. unfold parse_line. cbv zeta.
  destruct (nonempty (trim line) && negb (String.prefix "#" (trim line)))%bool eqn:E;
    [ | discriminate ].
  apply andb_true_iff in E. destruct E as [Ht _].
  destruct (split_at_head "=" (trim line)) as [key0 [rest [r [E Hr]]]].
  rewrite E.
  destruct (nonempty key0 && negb (Nat.eqb (length rest) 0))%bool eqn:E2; [ | discriminate ].
  apply andb_true_iff in E2. destruct E2 as [Hk _].
  intros H. injection H as <- _.
  destruct (String.prefix pre (trim line)) eqn:Hp.
  - apply prefix_app in Hp. destruct Hp as [y Hy].
    destruct (split_at_prefix "=" pre y (solid_no_equals pre Hs)) as [y1 [rest' E']].
    rewrite Hy, E' in E. injection E as <- _.
    rewrite (trim_solid pre y1 Hs Hne). apply prefix_app. eexists. reflexivity.
  - destruct (String.prefix pre (trim key0)) eqn:Hp'; [ | reflexivity ].
    exfalso. apply prefix_app in Hp'. destruct Hp' as [x Hx].
    assert (Hkey : trim key0 = trimEnd key0).
    { unfold trim. f_equal.
      destruct (trim_head line) as [Hl | [c [s' [Hl Hc]]]].
      - rewrite Hl in Ht. discriminate Ht.
      - rewrite Hl in Hr. destruct key0 as [| c0 key0]; [ discriminate Hk | ].
        injection Hr as <- _. apply trimStart_fixed. exact Hc. }
    destruct (trimEnd_prefix key0) as [r' Hr'].
    assert (Hline : String.prefix pre (trim line) = true).
    { apply prefix_app. exists (x ++ r' ++ r).
      rewrite Hr, Hr', <- Hkey, Hx, !app_assoc_string. reflexivity. }
    congruence.
Qed.

Lemma variable_prefix_solid (platform : Platform) :
  solid (variable_prefix platform) = true /\ nonempty (variable_prefix platform) = true.
Proof. destruct platform; split; reflexivity. Qed.

(** A line sets a variable of the platform exactly when [saveCredentials]
    takes it for one of the platform's lines. *)
Lemma parse_line_own (platform : Platform) (line key value : string) :
  parse_line line = Some (key, value) -> own_key platform key = own_line platform line.
Proof.
  destruct (variable_prefix_solid platform) as [Hs Hne].
  apply parse_line_prefix; assumption.
Qed.

(* ===================================================================== *)
(** ** The .env file: what loadEnv reads *)
(* ===================================================================== *)

Lemma load_lines_congr (lines : list string) (env1 env2 : Env) (key : string) :
  env1 key = env2 key ->
  fold_left load_line lines env1 key = fold_left load_line lines env2 key.
Proof.
  revert env1 env2. induction lines as [| line lines IH]; intros env1 env2 H;
    [ exact H | ].
  simpl. apply IH. unfold load_line.
  destruct (parse_line line) as [e |]; [ | exact H ].
  unfold set_env. rewrite H. reflexivity.
Qed.

(** Lines that do not set a variable can be left out. *)
Lemma load_lines_skip (f : string -> bool) (lines : list string) (env : Env)
    (key : string) :
  (forall line e, In line lines -> f line = false -> parse_line line = Some e ->
                  fst e <> key) ->
  fold_left load_line (filter f lines) env key = fold_left load_line lines env key.
Proof.
  revert env. induction lines as [| line lines IH]; intros env H; [ reflexivity | ].
  simpl. destruct (f line) eqn:E.
  - simpl. apply IH. intros l e Hl. apply H. right. exact Hl.
  - rewrite IH by (intros l e Hl; apply H; right; exact Hl).
    apply load_lines_congr. unfold load_line.
    destruct (parse_line line) as [e |] eqn:Ep; [ | reflexivity ].
    unfold set_env. destruct (String.eqb key (fst e)) eqn:Ek; [ | reflexivity ].
    apply String.eqb_eq in Ek. exfalso.
    apply (H line e (or_introl eq_refl) E Ep). symmetry. exact Ek.
Qed.

Lemma load_lines_untouched (lines : list string) (env : Env) (key : string) :
  (forall line e, In line lines -> parse_line line = Some e -> fst e <> key) ->
  fold_left load_line lines env key = env key.
Proof.
  intros H. rewrite <- (load_lines_skip (fun _ => false) lines env key).
  - assert (E : filter (fun _ : string => false) lines = []).
    { clear. induction lines; [ reflexivity | exact IHlines ]. }
    rewrite E. reflexivity.
  - intros line e Hl _. apply H. exact Hl.
Qed.

Lemma set_env_congr (es : list (string * string)) (env1 env2 : Env) (key : string) :
  env1 key = env2 key ->
  fold_left set_env es env1 key = fold_left set_env es env2 key.
Proof.
  revert env1 env2. induction es as [| e es IH]; intros env1 env2 H; [ exact H | ].
  simpl. apply IH. unfold set_env. rewrite H. reflexivity.
Qed.

Lemma trim_fixed (v : string) : trim v = v -> trimEnd v = v.
Proof.
  intros H. destruct (trim_head v) as [E | [c [s' [E Hc]]]].
  - rewrite E in H. subst v. reflexivity.
  - rewrite E in H. subst v. unfold trim in E. rewrite (trimStart_fixed c s' Hc) in E.
    exact E.
Qed.

Lemma app_empty_string (s : string) : s ++ EmptyString = s.
Proof. induction s as [| c s IH]; simpl; [ reflexivity | f_equal; exact IH ]. Qed.

Lemma contains_char_app (c : ascii) (a b : string) :
  contains_char c (a ++ b) = (contains_char c a || contains_char c b)%bool.
Proof.
  induction a as [| x a IH]; simpl; [ reflexivity | ].
  rewrite IH, orb_assoc. reflexivity.
Qed.

Lemma solid_one_line (s : string) :
  solid s = true -> contains_char (ascii_of_nat 10) s = false.
Proof.
  induction s as [| c s IH]; simpl; [ reflexivity | ].
  intros H. apply andb_true_iff in H. destruct H as [H Hs].
  apply andb_true_iff in H. destruct H as [Hc _]. apply negb_true_iff in Hc.
  rewrite (IH Hs), orb_false_r.
  destruct (Ascii.eqb c (ascii_of_nat 10)) eqn:E; [ | reflexivity ].
  apply Ascii.eqb_eq in E. subst c. discriminate Hc.
Qed.

(** What [saveCredentials] writes for a variable is read back by [loadEnv]
    as that variable with that value. *)
Lemma parse_line_entry (key value : string) :
  solid key = true -> String.prefix "#" key = false ->
  nonempty key = true -> nonempty value = true -> trim value = value ->
  parse_line (key ++ "=" ++ value) = Some (key, value).
Proof.
  intros Hs Hh Hk Hv Ht. unfold parse_line. cbv zeta.
  assert (E : trim (key ++ "=" ++ value) = key ++ "=" ++ value).
  { rewrite (trim_solid key _ Hs Hk). f_equal.
    change ("=" ++ value) with (String "=" value).
    rewrite trimEnd_cons by reflexivity. f_equal. apply trim_fixed. exact Ht. }
  rewrite E.
  assert (E1 : nonempty (key ++ "=" ++ value) = true).
  { destruct key; [ discriminate Hk | reflexivity ]. }
  assert (E2 : String.prefix "#" (key ++ "=" ++ value) = false).
  { destruct (String.prefix "#" (key ++ "=" ++ value)) eqn:E2; [ | reflexivity ].
    apply prefix_app in E2. destruct E2 as [r E2].
    destruct key as [| c key]; [ discriminate Hk | ].
    injection E2 as -> _.
    assert (Hp : String.prefix "#" (String "#" key) = true)
      by (apply prefix_app; exists key; reflexivity).
    congruence. }
  rewrite E1, E2. cbn [andb negb].
  change ("=" ++ value) with (String "=" value).
  rewrite (split_at_app "=" key value (solid_no_equals key Hs)), Hk.
  pose proof (split_at_not_nil "=" value) as Hne.
  destruct (split_at "=" value) as [| piece rest] eqn:Ev; [ contradiction | ].
  cbn [length Nat.eqb negb andb].
  rewrite <- Ev, (join_split_at "=" value), Ht.
  replace (trim key) with key; [ reflexivity | ].
  rewrite <- (app_empty_string key) at 2. rewrite (trim_solid key _ Hs Hk).
  cbn [trimEnd]. symmetry. apply app_empty_string.
Qed.

(** The variables [saveCredentials] writes: names of the platform, values
    that are not empty. *)
Lemma entries_keys (platform : Platform) (config : PlatformConfig.t) :
  Forall (fun e : string * string =>
            own_key platform (fst e) = true /\ solid (fst e) = true /\
            String.prefix "#" (fst e) = false /\ nonempty (fst e) = true /\
            nonempty (snd e) = true)
         (entries platform config).
Proof.
  assert (H : forall key value,
             own_key platform key = true -> solid key = true ->
             String.prefix "#" key = false -> nonempty key = true ->
             Forall (fun e : string * string =>
                       own_key platform (fst e) = true /\ solid (fst e) = true /\
                       String.prefix "#" (fst e) = false /\ nonempty (fst e) = true /\
                       nonempty (snd e) = true)
                    (entry key value)).
  { intros key value H1 H2 H3 H4. unfold entry.
    destruct (truthy value) eqn:E; constructor; [ | constructor ].
    cbn [fst snd]. repeat split; try assumption.
    destruct value as [v |]; [ | discriminate E ]. simpl in *. rewrite E. exact E. }
  destruct platform; unfold entries;
    repeat (apply Forall_app; split); apply H; reflexivity.
Qed.

Lemma load_entries (es : list (string * string)) (env : Env) :
  Forall (fun e : string * string =>
            solid (fst e) = true /\ String.prefix "#" (fst e) = false /\
            nonempty (fst e) = true /\ nonempty (snd e) = true /\
            trim (snd e) = snd e) es ->
  fold_left load_line (map (fun e : string * string => fst e ++ "=" ++ snd e) es) env =
  fold_left set_env es env.
Proof.
  revert env. induction es as [| [key value] es IH]; intros env H; [ reflexivity | ].
  inversion H as [| ? ? [H1 [H2 [H3 [H4 H5]]]] Hes]; subst. cbn [fst snd] in *.
  cbn [map fold_left fst snd].
  replace (load_line env (key ++ "=" ++ value)) with (set_env env (key, value));
    [ apply IH; exact Hes | ].
  unfold load_line. rewrite (parse_line_entry key value H1 H2 H3 H4 H5). reflexivity.
Qed.

Lemma header_sets_nothing (platform : Platform) : parse_line (header platform) = None.
Proof. destruct platform; reflexivity. Qed.


(** The lines [saveCredentials] adds hold no line break when the values do
    not. *)
Lemma newLines_one_line (platform : Platform) (config : PlatformConfig.t) :
  storable_config platform config ->
  Forall (fun line => contains_char (ascii_of_nat 10) line = false)
         (newLines platform config).
Proof.
  intros H. unfold newLines. constructor; [ destruct platform; reflexivity | ].
  pose proof (entries_keys platform config) as Hk. unfold storable_config in H.
  induction (entries platform config) as [| [key value] es IH]; [ constructor | ].
  inversion H as [| ? ? [_ [Hv _]] Hes]; subst.
  inversion Hk as [| ? ? [_ [Hs _]] Hks]; subst. cbn [fst snd] in *.
  simpl. constructor; [ | apply IH; assumption ].
  rewrite contains_char_app. change ("=" ++ value) with (String "=" value).
  cbn [contains_char]. rewrite (solid_one_line key Hs), Hv. reflexivity.
Qed.

Lemma filter_one_line (f : string -> bool) (content : string) :
  Forall (fun line => contains_char (ascii_of_nat 10) line = false)
         (filter f (split_at (ascii_of_nat 10) content)).
Proof.
  apply Forall_forall. intros line H. apply filter_In in H. destruct H as [H _].
  pose proof (split_at_pieces (ascii_of_nat 10) content) as Hp.
  rewrite Forall_forall in Hp. apply Hp. exact H.
Qed.


Lemma blank_sets_nothing : parse_line "" = None.
Proof. reflexivity. Qed.

(** Reading a file made by joining lines is reading the lines. *)
Lemma load_joined (lines : list string) (env : Env) :
  Forall (fun line => contains_char (ascii_of_nat 10) line = false) lines ->
  fold_left load_line (split_at (ascii_of_nat 10) (join nl lines)) env =
  fold_left load_line lines env.
Proof.
  intros H. destruct lines as [| line lines]; [ reflexivity | ].
  unfold nl. rewrite split_at_join; [ reflexivity | discriminate | exact H ].
Qed.

Lemma comment_sets_nothing (line : string) :
  String.prefix "#" (trim line) = true -> parse_line line = None.
Proof.
  intros H. unfold parse_line. cbv zeta. rewrite H, andb_false_r. reflexivity.
Qed.

(** A line that [deleteCredentials] drops sets a variable of the platform,
    or none. *)
Lemma dropped_line (platform : Platform) (line : string) (e : string * string) :
  kept_line platform line = false -> parse_line line = Some e ->
  own_key platform (fst e) = true.
Proof.
  unfold kept_line. cbv zeta. intros Hk Hp.
  destruct e as [key value]. cbn [fst].
  rewrite (parse_line_own platform line key value Hp).
  unfold own_line, variable_prefix.
  destruct (String.prefix (toUpperCase (platform_str platform) ++ "_") (trim line));
    [ reflexivity | ].
  exfalso. cbn [negb andb] in Hk.
  assert (Hc : String.prefix "#" (trim line) = true).
  { apply andb_false_iff in Hk. destruct Hk as [Hk | Hk]; apply negb_false_iff in Hk;
      refine (prefix_trans _ _ _ _ Hk); destruct platform; reflexivity. }
  rewrite (comment_sets_nothing line Hc) in Hp. discriminate Hp.
Qed.

(** What [loadEnv] reads after [deleteCredentials], variable by variable:
    a variable of another platform as before, a variable of the platform as
    the environment has it. *)
Lemma loaded_after_delete (platform : Platform) (file : EnvFile) (env : Env)
    (key : string) :
  loadEnv (deleteCredentials platform file) env key =
  if own_key platform key then env key else loadEnv file env key.
Proof.
  destruct file as [content |]; [ | simpl; destruct (own_key _ _); reflexivity ].
  unfold deleteCredentials, loadEnv.
  rewrite (load_joined _ env (filter_one_line _ content)).
  destruct (own_key platform key) eqn:Ho.
  - apply load_lines_untouched. intros line [k v] Hl Hp.
    apply filter_In in Hl. destruct Hl as [_ Hl]. cbn [fst]. intros ->.
    pose proof (parse_line_own platform line key v Hp) as E.
    unfold kept_line in Hl. cbv zeta in Hl.
    unfold own_line, variable_prefix in E. rewrite <- E, Ho in Hl. discriminate Hl.
  - apply load_lines_skip. intros line e _ Hk Hp E. rewrite <- E in Ho.
    rewrite (dropped_line platform line e Hk Hp) in Ho. discriminate Ho.
Qed.

(** What [loadEnv] reads after [saveCredentials]: a variable of another
    platform as before, a variable of the platform as written, or as the
    environment has it when it was not written. *)
Lemma loaded_after_save (platform : Platform) (config : PlatformConfig.t)
    (file : EnvFile) (env : Env) (key : string) :
  storable_config platform config ->
  loadEnv (saveCredentials platform config file) env key =
  if own_key platform key then fold_left set_env (entries platform config) env key
  else loadEnv file env key.
Proof.
  intros H. unfold saveCredentials, loadEnv. cbv zeta.
  rewrite load_joined.
  2:{ apply Forall_app. split; [ apply filter_one_line | ].
      apply Forall_app. split; [ constructor; [ reflexivity | constructor ] | ].
      apply newLines_one_line. exact H. }
  rewrite !fold_left_app. unfold newLines. cbn [fold_left].
  unfold load_line at 2 3. rewrite header_sets_nothing, blank_sets_nothing.
  assert (Hgood : Forall (fun e : string * string =>
            solid (fst e) = true /\ String.prefix "#" (fst e) = false /\
            nonempty (fst e) = true /\ nonempty (snd e) = true /\
            trim (snd e) = snd e) (entries platform config)).
  { pose proof (entries_keys platform config) as Hk. unfold storable_config in H.
    rewrite Forall_forall in *. intros e He.
    destruct (Hk e He) as [_ [H1 [H2 [H3 H4]]]]. destruct (H e He) as [_ [_ H5]].
    repeat split; assumption. }
  rewrite (load_entries _ _ Hgood).
  set (lines := split_at (ascii_of_nat 10) match file with Some c => c | None => "" end).
  destruct (own_key platform key) eqn:Ho.
  - apply set_env_congr. apply load_lines_untouched. intros line [k v] Hl Hp.
    apply filter_In in Hl. destruct Hl as [_ Hl]. cbn [fst]. intros ->.
    rewrite <- (parse_line_own platform line key v Hp), Ho in Hl. discriminate Hl.
  - assert (Hset : forall es base,
               Forall (fun e : string * string => own_key platform (fst e) = true) es ->
               fold_left set_env es base key = base key).
    { induction es as [| e es IH]; intros base Hes; [ reflexivity | ].
      inversion Hes as [| ? ? He Hes']; subst. simpl. rewrite (IH _ Hes').
      unfold set_env. destruct (String.eqb key (fst e)) eqn:Ek; [ | reflexivity ].
      apply String.eqb_eq in Ek. subst key. congruence. }
    rewrite Hset.
    2:{ pose proof (entries_keys platform config) as Hk.
        rewrite Forall_forall in *. intros e He. apply (Hk e He). }
    transitivity (fold_left load_line lines env key).
    + apply load_lines_skip. intros line [k v] _ Hl Hp. cbn [fst]. intros ->.
      apply negb_false_iff in Hl.
      rewrite <- (parse_line_own platform line key v Hp), Ho in Hl. discriminate Hl.
    + subst lines. destruct file as [content |]; reflexivity.
Qed.

(** [getCredentials] reads the variables of the platform only. *)
Lemma getCredentials_reads_own (platform : Platform) (env1 env2 : Env) :
  (forall key, own_key platform key = true -> env1 key = env2 key) ->
  getCredentials env1 platform = getCredentials env2 platform.
Proof.
  intros H. destruct platform; unfold getCredentials; cbv zeta;
    repeat match goal with
           | |- context [env1 ?k] => rewrite (H k eq_refl)
           end; reflexivity.
Qed.


(* ===================================================================== *)
(** ** Saving, reading back and deleting credentials *)
(* ===================================================================== *)



(** Reads the variables off the environment that the entries written make. *)
Ltac read_back E :=
  cbn [app fold_left set_env fst snd String.eqb Ascii.eqb Bool.eqb];
  cbn [truthy] in E;
  repeat match goal with
         | H : _ = _ |- _ => rewrite H
         end;
  repeat match goal with
         | |- context [truthy (Some (or_str ?o ""))] =>
             replace (truthy (Some (or_str o ""))) with true
               by (destruct o as [[| ? ?] |]; simpl in *; congruence)
         | |- context [Some (or_str ?o "")] =>
             replace (Some (or_str o "")) with o
               by (destruct o as [[| ? ?] |]; simpl in *; congruence)
         end;
  cbn [truthy negb andb orb or_str nonempty];
  repeat match goal with
         | H : _ = _ |- _ => rewrite H
         end;
  cbn [negb andb orb];
  try reflexivity;
  match goal with
  | H : nonempty ?t = false |- _ => destruct t; [ reflexivity | discriminate H ]
  end.

(** X16.  Saved credentials are read back: in a process whose environment holds
    no variable of the platform, [getCredentials] after [saveCredentials]
    returns the fields the platform stores, with the values saved (an empty
    field reads as an absent one), provided the values are storable and
    suffice ([accessToken] or [bearerToken] for Twitter, [accessToken] and
    [userId] for Instagram, [accessToken] for LinkedIn); it returns null
    when they do not suffice.  What the file held before for the platform
    does not matter. *)
Theorem saved_credentials_are_read_back (platform : Platform) (config : PlatformConfig.t)
    (file : EnvFile) (env : Env) :
  storable_config platform config ->
  no_variable_of platform env ->
  storedCredentials (saveCredentials platform config file) env platform =
    if sufficient platform config then Some (stored_fields platform config) else None.
Proof.
  intros H Hfresh. unfold storedCredentials.
  rewrite (getCredentials_reads_own platform _
             (fold_left set_env (entries platform config) (fun _ => None))).
  2:{ intros key Ho. rewrite (loaded_after_save platform config file env key H), Ho.
      apply set_env_congr. apply Hfresh. exact Ho. }
  clear. destruct config as [apiKey apiSecret accessToken accessSecret bearerToken
                             clientId clientSecret userId appId redirectUri].
  destruct platform; unfold entries, entry, sufficient, stored_fields, present, getCredentials;
    cbn [PlatformConfig.apiKey PlatformConfig.apiSecret PlatformConfig.accessToken
         PlatformConfig.accessSecret PlatformConfig.bearerToken PlatformConfig.clientId
         PlatformConfig.clientSecret PlatformConfig.userId PlatformConfig.appId
         PlatformConfig.redirectUri]; cbv zeta.
  - destruct (truthy apiKey) eqn:E1, (truthy apiSecret) eqn:E2,
      (truthy (Some accessToken)) eqn:E3, (truthy accessSecret) eqn:E4,
      (truthy bearerToken) eqn:E5; read_back E3.
  - destruct (truthy (Some accessToken)) eqn:E3, (truthy userId) eqn:E1,
      (truthy appId) eqn:E2, (truthy apiSecret) eqn:E4; read_back E3.
  - destruct (truthy clientId) eqn:E1, (truthy clientSecret) eqn:E2,
      (truthy (Some accessToken)) eqn:E3, (truthy redirectUri) eqn:E4; read_back E3.
Qed.

Lemma no_twitter_variable : no_variable_of TWITTER env_linkedin_only.
Proof.
  intros key H. unfold env_linkedin_only.
  destruct (String.eqb key "LINKEDIN_ACCESS_TOKEN") eqn:E; [ | reflexivity ].
  apply String.eqb_eq in E. subst key. discriminate H.
Qed.

Lemma saved_credentials_are_read_back_witness :
  storedCredentials (saveCredentials TWITTER twitter_config old_file) env_linkedin_only
                    TWITTER =
    if sufficient TWITTER twitter_config
    then Some (stored_fields TWITTER twitter_config) else None.
Proof.
  apply (saved_credentials_are_read_back TWITTER twitter_config old_file env_linkedin_only).
  - unfold storable_config, storable. simpl. repeat constructor.
  - exact no_twitter_variable.
Defined.

(** X17.  [deleteCredentials] takes the variables of the platform out of the file
    but not out of the process: what [loadEnv] reads for them afterwards is
    what the environment already held, so [getCredentials] answers from the
    environment alone.  In a process whose environment holds none of them
    the platform has no credentials any more; in a process that has loaded
    the file before, [hasCredentials] answers after the deletion as it did
    before it. *)
Theorem deleted_credentials_stay_in_the_environment (platform : Platform)
    (file : EnvFile) (env : Env) :
  (forall key, own_key platform key = true ->
     loadEnv (deleteCredentials platform file) env key = env key) /\
  storedCredentials (deleteCredentials platform file) env platform =
    getCredentials env platform /\
  (no_variable_of platform env -> hasCredentials (deleteCredentials platform file) env platform = false) /\
  hasCredentials (deleteCredentials platform file) (loadEnv file env) platform =
    hasCredentials file env platform.
Proof.
  assert (Hkey : forall e key, own_key platform key = true ->
            loadEnv (deleteCredentials platform file) e key = e key).
  { intros e key Ho. rewrite loaded_after_delete, Ho. reflexivity. }
  assert (Hget : forall e, storedCredentials (deleteCredentials platform file) e platform =
                           getCredentials e platform).
  { intros e. unfold storedCredentials. apply getCredentials_reads_own. apply Hkey. }
  split; [ apply Hkey | ]. split; [ apply Hget | ]. split.
  - intros Hfresh. unfold hasCredentials. rewrite Hget.
    rewrite (getCredentials_reads_own platform env (fun _ => None) Hfresh).
    destruct platform; reflexivity.
  - unfold hasCredentials. rewrite Hget. reflexivity.
Qed.





(* ===================================================================== *)
(** ** The quote-mentions tool *)
(* ===================================================================== *)

Lemma batch_loop_concat (fuel i : nat) (all : list string) :
  (length all - i <= fuel)%nat ->
  concat (QuoteMentions.batch_loop fuel i all) = skipn i all.
Proof.
  revert i. induction fuel as [| fuel IH]; intros i H; simpl.
  - symmetry. apply skipn_all2. lia.
  - destruct (Nat.ltb i (length all)) eqn:E.
    + apply Nat.ltb_lt in E. simpl. rewrite IH by (unfold QuoteMentions.MENTIONS_PER_BATCH; lia).
      unfold QuoteMentions.slice.
      replace (i + QuoteMentions.MENTIONS_PER_BATCH - i)%nat
        with QuoteMentions.MENTIONS_PER_BATCH by lia.
      rewrite (Nat.add_comm i), <- skipn_skipn. apply firstn_skipn.
    + apply Nat.ltb_ge in E. symmetry. apply skipn_all2. exact E.
Qed.

Lemma batch_loop_sizes (fuel i : nat) (all : list string) :
  Forall (fun batch => (1 <= length batch <= 40)%nat /\ exists j, batch = firstn 40 (skipn j all))
         (QuoteMentions.batch_loop fuel i all).
Proof.
  revert i. induction fuel as [| fuel IH]; intros i; simpl; [ constructor | ].
  destruct (Nat.ltb i (length all)) eqn:E; [ | constructor ].
  apply Nat.ltb_lt in E. constructor; [ | apply IH ].
  unfold QuoteMentions.slice.
  replace (i + QuoteMentions.MENTIONS_PER_BATCH - i)%nat with 40%nat
    by (unfold QuoteMentions.MENTIONS_PER_BATCH; lia).
  split; [ | exists i; reflexivity ].
  rewrite length_firstn, length_skipn. lia.
Qed.

Lemma batch_loop_length (fuel i : nat) (all : list string) :
  (length all - i <= fuel)%nat ->
  length (QuoteMentions.batch_loop fuel i all) = ((length all - i + 39) / 40)%nat.
Proof.
  revert i. induction fuel as [| fuel IH]; intros i H; cbn [QuoteMentions.batch_loop].
  - replace (length all - i)%nat with 0%nat by lia. reflexivity.
  - destruct (Nat.ltb i (length all)) eqn:E.
    + apply Nat.ltb_lt in E. cbn [length].
      rewrite IH by (unfold QuoteMentions.MENTIONS_PER_BATCH; lia).
      unfold QuoteMentions.MENTIONS_PER_BATCH.
      destruct (Nat.le_gt_cases 40 (length all - i)) as [Hge | Hlt].
      * replace (length all - i + 39)%nat
          with ((length all - (i + 40) + 39) + 1 * 40)%nat by lia.
        rewrite Nat.div_add by discriminate. lia.
      * replace (length all - (i + 40))%nat with 0%nat by lia.
        change ((0 + 39) / 40)%nat with 0%nat.
        apply (Nat.div_unique _ 40 1 (length all - i - 1)); lia.
    + apply Nat.ltb_ge in E. replace (length all - i)%nat with 0%nat by lia. reflexivity.
Qed.

Lemma in_firstn_skipn {A} (n j : nat) (x : A) (l : list A) :
  In x (firstn n (skipn j l)) -> In x l.
Proof.
  intros H. apply (in_firstn n) in H.
  rewrite <- (firstn_skipn j l). apply in_or_app. right. exact H.
Qed.

(** X19.  The batches of [main] are the handles of the file cut into pieces of 40:
    put end to end they are the handles kept, in order; every batch holds
    between 1 and 40 handles, each starting with '@'; there
    are as many batches as needed and no more. *)
Theorem batches_partition_the_handles (handlesContent : string) :
  let allHandles := QuoteMentions.handles_of handlesContent in
  let batches := QuoteMentions.batches_of allHandles in
  concat batches = allHandles /\
  Forall (fun batch => (1 <= length batch <= 40)%nat) batches /\
  Forall (Forall (fun handle => String.prefix "@" handle = true)) batches /\
  length batches = ((length allHandles + 39) / 40)%nat.
Proof.
  cbv zeta. unfold QuoteMentions.batches_of.
  set (all := QuoteMentions.handles_of handlesContent).
  split; [ apply batch_loop_concat; lia | ].
  pose proof (batch_loop_sizes (length all) 0 all) as Hs.
  split; [ | split ].
  - rewrite Forall_forall in *. intros batch Hb. apply (Hs batch Hb).
  - rewrite Forall_forall in *. intros batch Hb.
    destruct (Hs batch Hb) as [_ [j ->]].
    rewrite Forall_forall. intros handle Hh. apply in_firstn_skipn in Hh.
    unfold all, QuoteMentions.handles_of in Hh. apply filter_In in Hh.
    destruct Hh as [Hin Hf]. apply andb_true_iff in Hf. destruct Hf as [_ Hat].
    exact Hat.
  - rewrite batch_loop_length by lia. rewrite Nat.sub_0_r. reflexivity.
Qed.

(** With a client that throttles every quote tweet the loop over the batches
    does not get past the first batch, whatever the bound on its requests. *)
Lemma quote_batches_stuck (client : QuoteMentions.Client) (fuel : nat) (tweetId : string)
    (moreReplies : bool) (batch : list string) (rest : list (list string))
    (quoteCount : nat) (run : QuoteMentions.Run) :
  QuoteMentions.always_throttles client ->
  QuoteMentions.quote_batches fuel client tweetId moreReplies (batch :: rest) quoteCount run
    = None.
Proof.
  intros H. revert run. induction fuel as [| fuel IH]; intros run; [ reflexivity | ].
  cbn [QuoteMentions.quote_batches]. unfold QuoteMentions.send.
  destruct (H (QuoteMentions.requests run) (join " " batch) tweetId) as [error [-> ->]].
  apply IH.
Qed.

Lemma batches_of_cons (handle : string) (handles : list string) :
  exists batch rest, QuoteMentions.batches_of (handle :: handles) = batch :: rest.
Proof.
  unfold QuoteMentions.batches_of. cbn [length QuoteMentions.batch_loop Nat.ltb Nat.leb].
  eexists. eexists. reflexivity.
Qed.

(** X20.  [main] does not end when every quote tweet is answered with code 429:
    once the user is found, at least one reply is returned and the handles
    file holds at least one handle, the first quote tweet is sent again
    after every refusal, and no bound on the number of requests lets the
    run finish. *)
Theorem main_never_ends_when_throttled (client : QuoteMentions.Client) (userId : string)
    (tweet : TweetV2.t) (tweets : list TweetV2.t) (handlesContent : string) (fuel : nat) :
  QuoteMentions.always_throttles client ->
  client [] (QuoteMentions.UserByUsername QuoteMentions.HANDLE) = inr userId ->
  client [QuoteMentions.UserByUsername QuoteMentions.HANDLE]
         (QuoteMentions.UserMentionTimeline userId QuoteMentions.REPLIES_LIMIT)
    = inr (Some (tweet :: tweets)) ->
  QuoteMentions.handles_of handlesContent <> [] ->
  QuoteMentions.main fuel client (Some handlesContent) = None.
Proof.
  intros Hth Hu Hm Hh. unfold QuoteMentions.main, QuoteMentions.send.
  cbn [QuoteMentions.requests QuoteMentions.begin app]. rewrite Hu.
  cbn [QuoteMentions.requests app]. rewrite Hm. cbn [or_nil]. cbv zeta.
  destruct (QuoteMentions.handles_of handlesContent) as [| handle handles];
    [ contradiction | ].
  destruct (batches_of_cons handle handles) as [batch [rest ->]].
  cbn [QuoteMentions.quote_replies].
  rewrite (quote_batches_stuck client fuel _ _ batch rest 0 _ Hth). reflexivity.
Qed.

Lemma main_never_ends_when_throttled_witness :
  QuoteMentions.main 1000 throttling (Some two_handles) = None.
Proof.
  apply (main_never_ends_when_throttled throttling "2244994945"
           hello_tweet [] two_handles 1000).
  - intros log text id. exists too_many_requests. split; reflexivity.
  - reflexivity.
  - reflexivity.
  - discriminate.
Defined.




